(** * Pyserini search controller: a shallow embedding and its properties

    The development follows [pyserini/server/search_controller.py].  The
    controller is a Python object holding one dictionary, [self.indexes],
    from index names to [IndexConfig] handles.  Its methods read and write
    that dictionary, call into the retrieval engines and raise exceptions.

    - The dictionary is a [gmap string IndexConfig].
    - Methods are computations in a state-and-exception monad [M] over the
      controller's [World]; an exception leaves the writes made before it in
      place, as in Python.
    - Everything imported from outside the file (the prebuilt catalogs, the
      searcher constructors, [check_downloaded], [json.loads], the builtin
      [int]) is a field of the record [Externals].
    - Calls into a retrieval engine are recorded in a trace, so that "the
      backend was (not) loaded" and "the backend was asked for k hits" are
      statements about the model. *)

From stdpp Require Import base option list gmap strings pretty sorting.
From Stdlib Require Import Ascii ZArith Lia.

Local Open Scope Z_scope.
#[local] Set Warnings "-register-all".

(** * Part I: the model *)

(** ** Python values and exceptions *)

(** Values stored in the dictionaries the controller returns. *)
Inductive PyVal :=
  | PyInt (n : Z)
  | PyStr (s : string)
  | PyBool (b : bool)
  | PyNone.

(** The result of [json.loads]: objects are key/value lists with distinct
    keys, in document order. *)
Inductive json :=
  | JNull
  | JBool (b : bool)
  | JNum (literal : string)
  | JStr (s : string)
  | JArr (items : list json)
  | JObj (fields : list (string * json)).

(** Exceptions by class.  [ValueError] carries its message, [KeyError] the
    missing key.  [json.JSONDecodeError] is kept apart from the controller's
    own [ValueError]s; what a retrieval engine raises is [BackendError]. *)
Inductive exn :=
  | ValueError (msg : string)
  | KeyError (key : string)
  | TypeError (msg : string)
  | AttributeError (msg : string)
  | JSONDecodeError
  | BackendError (tag : string).

Inductive outcome (E A : Type) :=
  | Ok (a : A)
  | Raise (e : E).
Arguments Ok {E A} a.
Arguments Raise {E A} e.

(** A call into a retrieval engine either answers or fails with a tag. *)
Abbreviation backend := (outcome string).
Abbreviation result := (outcome exn).

Definition is_Ok {E A} (r : outcome E A) : bool :=
  match r with Ok _ => true | Raise _ => false end.

(** ** Events: the calls that leave the controller *)
Inductive Event :=
  | EvLoadHnsw (name : string) (ef_search : option Z) (encoder : option string)
  | EvLoadLucene (name : string)
  | EvSearch (name query : string) (k : Z)
  | EvDoc (name docid : string).

Definition is_load (ev : Event) : bool :=
  match ev with
  | EvLoadHnsw _ _ _ | EvLoadLucene _ => true
  | _ => false
  end.

(** ** Module constants *)

Definition DEFAULT_INDEX : string := "msmarco-v1-passage".

(** [f"msmarco-v2.1-doc-segmented-shard0{i}.arctic-embed-l.hnsw-int8"] *)
Definition shard_name_of (i : nat) : string :=
  "msmarco-v2.1-doc-segmented-shard0" +:+ pretty i +:+ ".arctic-embed-l.hnsw-int8".

Definition SHARDS : list string := shard_name_of <$> seq 0 10.

(** ** Messages of the controller's own [ValueError]s *)

(** [f"Index '{config.name}' not currently supported in prebuilt indexes."] *)
Definition unsupported_msg (n : string) : string :=
  "Index '" +:+ n +:+ "' not currently supported in prebuilt indexes.".

(** [f"Index '{index_name}' not available"] *)
Definition not_available_msg (n : string) : string :=
  "Index '" +:+ n +:+ "' not available".

(** [f"Document '{docid}' not found in index '{index_name}'"] *)
Definition not_found_msg (docid n : string) : string :=
  "Document '" +:+ docid +:+ "' not found in index '" +:+ n +:+ "'".

(** [f"Default index '{default_index}' not found in prebuilt indexes."] *)
Definition no_default_msg (n : string) : string :=
  "Default index '" +:+ n +:+ "' not found in prebuilt indexes.".

(** *** [repr] of a string, as the message of [int] shows it

    ASCII text; bytes above 127 are taken to encode printable characters
    and are kept. *)
Definition double_quote : ascii := ascii_of_nat 34.
Definition single_quote : ascii := ascii_of_nat 39.

Fixpoint string_has (c : ascii) (s : string) : bool :=
  match s with
  | EmptyString => false
  | String c' rest => bool_decide (c' = c) || string_has c rest
  end.

Fixpoint string_take (n : nat) (s : string) : string :=
  match n, s with
  | S n, String c rest => String c (string_take n rest)
  | _, _ => EmptyString
  end.

Definition hex_digit (n : nat) : ascii :=
  ascii_of_nat (if (n <? 10)%nat then 48 + n else 87 + n).

(** One character inside the quotes: the quote in use and the backslash
    are escaped, newline, carriage return and tab have their letters, other
    control characters are written [\xhh]. *)
Definition repr_char (quote c : ascii) : string :=
  let n := nat_of_ascii c in
  if bool_decide (c = quote) || bool_decide (n = 92)%nat then String (ascii_of_nat 92) (String c EmptyString)
  else if bool_decide (n = 10)%nat then "\n"
  else if bool_decide (n = 13)%nat then "\r"
  else if bool_decide (n = 9)%nat then "\t"
  else if bool_decide (n < 32 ∨ n = 127)%nat then
    "\x" +:+ String (hex_digit (n / 16)) (String (hex_digit (n mod 16)) EmptyString)
  else String c EmptyString.

Fixpoint repr_chars (quote : ascii) (s : string) : string :=
  match s with
  | EmptyString => EmptyString
  | String c rest => repr_char quote c +:+ repr_chars quote rest
  end.

(** Single quotes, unless the text holds a single quote and no double
    quote. *)
Definition py_repr (text : string) : string :=
  let quote :=
    if string_has single_quote text && negb (string_has double_quote text)
    then double_quote else single_quote in
  String quote (repr_chars quote text +:+ String quote EmptyString).

(** The message of [int] for a string that is no integer literal:
    the format is ["invalid literal for int() with base %d: %.200R"]. *)
Definition invalid_literal_msg (text : string) : string :=
  "invalid literal for int() with base 10: " +:+ string_take 200 (py_repr text).

(** The value of a settings field after an update: the provided value, or
    the old one when none is provided. *)
Definition overwrite {A} (provided old : option A) : option A :=
  match provided with
  | Some v => Some v
  | None => old
  end.

(** ** Python list slicing [l[:k]] *)
Definition py_slice_to {A} (l : list A) (k : Z) : list A :=
  if (0 <=? k)%Z then take (Z.to_nat k) l
  else take (length l - Z.to_nat (- k))%nat l.

(** Lookup in a JSON object. *)
Fixpoint assoc (key : string) (fields : list (string * json)) : option json :=
  match fields with
  | [] => None
  | (k, v) :: rest => if decide (k = key) then Some v else assoc key rest
  end.

(** [v["contents"]] for a value returned by [json.loads]. *)
Definition json_getitem (v : json) (key : string) : result json :=
  match v with
  | JObj fields =>
      match assoc key fields with
      | Some c => Ok c
      | None => Raise (KeyError key)
      end
  | JArr _ => Raise (TypeError "list indices must be integers or slices, not str")
  | JStr _ => Raise (TypeError "string indices must be integers, not 'str'")
  | _ => Raise (TypeError "object is not subscriptable")
  end.

Section Model.
(** Scores are floats that the controller only ever compares, and only in
    the merge of [sharded_search]; their type is left open here and their
    order [<] is a parameter of the merge. *)
Context {Score : Type}.

(** ** Retrieval-engine objects *)

(** A hit of [searcher.search]: [hit.docid], [hit.score] and
    [hit.lucene_document.get("raw")]. *)
Record Hit := mkHit {
  hit_docid : string;
  hit_score : Score;
  hit_raw : option string;
}.

(** A stored document; [doc.raw()]. *)
Record Document := mkDocument {
  doc_raw : option string;
}.

(** A loaded [LuceneSearcher] or [LuceneHnswDenseSearcher]. *)
Record Searcher := mkSearcher {
  searcher_search : string → Z → backend (list Hit);
  searcher_doc : string → backend (option Document);
}.

(** Modelled from the spec: [pyserini.server.models.IndexConfig] is not
    among the sources.  Section 3 gives the handle a name, a backend that
    is absent until provisioning succeeds, and the optional settings
    searchWidth, encoder and queryGenerator; the controller also passes
    [path].  Every field but [name] defaults to [None]. *)
Record IndexConfig := mkIndexConfig {
  name : string;
  path : option string;
  ef_search : option Z;
  encoder : option string;
  query_generator : option string;
  searcher : option Searcher;
}.

(** [IndexConfig(name=..., path=..., ef_search=..., encoder=...,
    query_generator=...)] *)
Definition IndexConfig_new (n : string) (p : option string) (ef : option Z)
    (enc qg : option string) : IndexConfig :=
  mkIndexConfig n p ef enc qg None.

Definition set_searcher (c : IndexConfig) (s : option Searcher) : IndexConfig :=
  mkIndexConfig (name c) (path c) (ef_search c) (encoder c) (query_generator c) s.
Definition set_ef_search (c : IndexConfig) (v : option Z) : IndexConfig :=
  mkIndexConfig (name c) (path c) v (encoder c) (query_generator c) (searcher c).
Definition set_encoder (c : IndexConfig) (v : option string) : IndexConfig :=
  mkIndexConfig (name c) (path c) (ef_search c) v (query_generator c) (searcher c).
Definition set_query_generator (c : IndexConfig) (v : option string) : IndexConfig :=
  mkIndexConfig (name c) (path c) (ef_search c) (encoder c) v (searcher c).

(** Modelled from the spec: the catalogs of [pyserini.prebuilt_index_info]
    are not among the sources.  Section 6 describes them as static
    mappings from an index name to metadata holding at least the
    compressed size in bytes. *)
Record IndexInfo := mkIndexInfo {
  size_compressed : Z;
}.

(** ** What the file imports *)
Record Externals := mkExternals {
  TF_INDEX_INFO : gmap string IndexInfo;
  LUCENE_HNSW_INDEX_INFO : gmap string IndexInfo;
  (** [pyserini.util.check_downloaded] *)
  check_downloaded : string → bool;
  (** [LuceneSearcher.from_prebuilt_index(name)] *)
  LuceneSearcher_from_prebuilt_index : string → backend (option Searcher);
  (** [LuceneHnswDenseSearcher.from_prebuilt_index(name, ef_search=...,
      encoder=..., verbose=True)] *)
  LuceneHnswDenseSearcher_from_prebuilt_index :
    string → option Z → option string → backend (option Searcher);
  (** [json.loads]; [None] stands for [JSONDecodeError]. *)
  json_loads : string → option json;
  (** the builtin [int] on a string; [None] stands for [ValueError]. *)
  py_int : string → option Z;
}.

(** ** The controller's state and its monad *)
Record World := mkWorld {
  indexes : gmap string IndexConfig;
  trace : list Event;
}.

Definition M (A : Type) : Type := World → result A * World.

Definition ret {A} (a : A) : M A := λ w, (Ok a, w).
Definition raise {A} (e : exn) : M A := λ w, (Raise e, w).
Definition bind {A B} (m : M A) (f : A → M B) : M B :=
  λ w, match m w with
       | (Ok a, w') => f a w'
       | (Raise e, w') => (Raise e, w')
       end.
Definition of_result {A} (r : result A) : M A := λ w, (r, w).

(** [self.indexes.get(key)] and [self.indexes[key] = c] *)
Definition indexes_get (key : string) : M (option IndexConfig) :=
  λ w, (Ok (indexes w !! key), w).
Definition indexes_set (key : string) (c : IndexConfig) : M unit :=
  λ w, (Ok (), mkWorld (<[key := c]> (indexes w)) (trace w)).
(** [self.indexes[key]] *)
Definition indexes_getitem (key : string) : M IndexConfig :=
  λ w, match indexes w !! key with
       | Some c => (Ok c, w)
       | None => (Raise (KeyError key), w)
       end.

Definition emit (ev : Event) : M unit :=
  λ w, (Ok (), mkWorld (indexes w) (trace w ++ [ev])).
Definition call {A} (r : backend A) : M A :=
  λ w, match r with
       | Ok a => (Ok a, w)
       | Raise tag => (Raise (BackendError tag), w)
       end.
End Model.

Arguments Hit : clear implicits.
Arguments Searcher : clear implicits.
Arguments IndexConfig : clear implicits.
Arguments Externals : clear implicits.
Arguments World : clear implicits.
Arguments M : clear implicits.

Declare Scope ctl_scope.
Delimit Scope ctl_scope with ctl.
Notation "x <- m ;; k" := (bind m (λ x, k))
  (at level 100, m at next level, right associativity) : ctl_scope.
Notation "m ;;; k" := (bind m (λ _, k))
  (at level 100, right associativity) : ctl_scope.

(** ** The controller's methods *)
Section Controller.
Context {Score : Type} (score_ltb : Score → Score → bool).
Context (ext : Externals Score).
Local Open Scope ctl_scope.

Abbreviation Config := (IndexConfig Score).
Abbreviation Ctl := (M Score).

(** [add_index(self, config)] *)
Definition add_index (config : Config) : Ctl Config :=
  config' <-
    (if bool_decide (name config ∈ SHARDS) then
       emit (EvLoadHnsw (name config) (ef_search config) (encoder config));;;
       s <- call (LuceneHnswDenseSearcher_from_prebuilt_index ext
                    (name config) (ef_search config) (encoder config));;
       ret (set_searcher config s)
     else if bool_decide (is_Some (TF_INDEX_INFO ext !! name config)) then
       emit (EvLoadLucene (name config));;;
       s <- call (LuceneSearcher_from_prebuilt_index ext (name config));;
       ret (set_searcher config s)
     else
       raise (ValueError (unsupported_msg (name config))));;
  indexes_set (name config') config';;;
  ret config'.

(** [initialize_default_index(self, default_index)] *)
Definition initialize_default_index (default_index : string) : Ctl unit :=
  if bool_decide (is_Some (TF_INDEX_INFO ext !! default_index)) then
    add_index (IndexConfig_new default_index None None None None);;;
    ret ()
  else
    raise (ValueError (no_default_msg default_index)).

(** [get_indexes(self)]: the lexical catalog updated with the HNSW one. *)
Definition get_indexes : Ctl (gmap string IndexInfo) :=
  ret (LUCENE_HNSW_INDEX_INFO ext ∪ TF_INDEX_INFO ext).

(** Truth value of a handle: [IndexConfig] objects define neither
    [__bool__] nor [__len__], so a handle is always true. *)
Definition truthy (c : Config) : bool := true.

(** [if not index_config or not index_config.searcher:
       index_config = self.add_index(fresh)]
    applied to the result of [self.indexes.get(...)]. *)
Definition or_add_index (found : option Config) (fresh : Config) : Ctl Config :=
  match found with
  | None => add_index fresh
  | Some c =>
      if negb (truthy c) then add_index fresh
      else match searcher c with
           | None => add_index fresh
           | Some _ => ret c
           end
  end.

(** [index_config.searcher.search(query, k)], entered in the trace under
    the name the caller resolved the handle by. *)
Definition searcher_search_call (key : string) (c : Config) (query : string) (k : Z)
    : Ctl (list (Hit Score)) :=
  match searcher c with
  | None => raise (AttributeError "'NoneType' object has no attribute 'search'")
  | Some s => emit (EvSearch key query k);;; call (searcher_search s query k)
  end.

(** [json.loads(text)] where [text] may be [None]. *)
Definition json_loads_call (text : option string) : Ctl json :=
  match text with
  | None => raise (TypeError "the JSON object must be str, bytes or bytearray, not NoneType")
  | Some t =>
      match json_loads ext t with
      | Some v => ret v
      | None => raise JSONDecodeError
      end
  end.

(** One entry of ["candidates"]. *)
Record Candidate := mkCandidate {
  cand_docid : string;
  cand_score : Score;
  cand_contents : json;
}.

(** The dictionary [search] returns. *)
Record QueryResponse := mkQueryResponse {
  resp_qid : string;
  resp_text : string;
  resp_candidates : list Candidate;
}.

(** The loop [for hit in hits: ... candidates.append(...)]. *)
Fixpoint collect_candidates (hits : list (Hit Score)) : Ctl (list Candidate) :=
  match hits with
  | [] => ret []
  | hit :: rest =>
      raw <- json_loads_call (hit_raw hit);;
      contents <- of_result (json_getitem raw "contents");;
      more <- collect_candidates rest;;
      ret (mkCandidate (hit_docid hit) (hit_score hit) contents :: more)
  end.

(** [search(self, query, index_name, k, qid, ef_search, encoder,
    query_generator)] *)
Definition search (query index_name : string) (k : Z) (qid : string)
    (ef_search : option Z) (encoder query_generator : option string)
    : Ctl QueryResponse :=
  found <- indexes_get index_name;;
  index_config <-
    or_add_index found
      (IndexConfig_new index_name (Some index_name) ef_search encoder query_generator);;
  hits <- searcher_search_call index_name index_config query k;;
  candidates <- collect_candidates hits;;
  ret (mkQueryResponse qid query candidates).

(** One entry of a shard's result list: [{"docid": ..., "score": ...}]. *)
Record ShardHit := mkShardHit {
  sh_docid : string;
  sh_score : Score;
}.

(** [_search_single_shard(self, shard_name, query, k, ef_search, encoder)] *)
Definition _search_single_shard (shard_name query : string) (k : Z)
    (ef_search : Z) (encoder : string) : Ctl (list ShardHit) :=
  found <- indexes_get shard_name;;
  index_config <-
    or_add_index found
      (IndexConfig_new shard_name None (Some ef_search) (Some encoder) None);;
  hits <- searcher_search_call shard_name index_config query k;;
  ret ((λ hit, mkShardHit (hit_docid hit) (hit_score hit)) <$> hits).

(** *** Sharded search *)

(** [all_results.sort(key=lambda x: x["score"], reverse=True)].  The sort
    of Python lists is stable, also with [reverse=True]; when [<] on the
    keys is a strict weak order every stable sort returns the same list,
    computed here by insertion: an entry moves behind exactly the entries
    of strictly higher score. *)
Fixpoint insert_desc (x : ShardHit) (l : list ShardHit) : list ShardHit :=
  match l with
  | [] => [x]
  | y :: l' =>
      if score_ltb (sh_score x) (sh_score y) then y :: insert_desc x l'
      else x :: l
  end.

Definition sort_by_score_desc (l : list ShardHit) : list ShardHit :=
  foldr insert_desc [] l.

(** The tasks handed to the thread pool.  A task works on the registry
    entry of its own shard only, and dictionary reads and writes are
    atomic, so the tasks are run one after the other, in the order
    [order] in which they complete.  A task that raises keeps its
    exception in its future; the pool is never shut down, so the tasks
    behind it run all the same. *)
Fixpoint run_shard_tasks (order : list string) (query : string) (k : Z)
    (ef_search : Z) (encoder : string) (w : World Score)
    : list (result (list ShardHit)) * World Score :=
  match order with
  | [] => ([], w)
  | shard_name :: rest =>
      let (r, w') := _search_single_shard shard_name query k ef_search encoder w in
      let (rs, w'') := run_shard_tasks rest query k ef_search encoder w' in
      (r :: rs, w'')
  end.

(** [for future in as_completed(...): all_results.extend(future.result())]:
    the first exception met ends the loop. *)
Fixpoint gather (futures : list (result (list ShardHit))) (all_results : list ShardHit)
    : result (list ShardHit) :=
  match futures with
  | [] => Ok all_results
  | Ok shard_results :: rest => gather rest (all_results ++ shard_results)
  | Raise e :: _ => Raise e
  end.

(** [sharded_search(self, query, k, ef_search, encoder)]; [order] lists
    the shards in the order [as_completed] yields their futures. *)
Definition sharded_search (order : list string) (query : string) (k : Z)
    (ef_search : Z) (encoder : string) : Ctl (list ShardHit) :=
  λ w,
    let (futures, w') := run_shard_tasks order query k ef_search encoder w in
    match gather futures [] with
    | Ok all_results => (Ok (py_slice_to (sort_by_score_desc all_results) k), w')
    | Raise e => (Raise e, w')
    end.

(** The answer of a shard's backend, as the task returns it. *)
Definition shard_answer (c : Config) (query : string) (k : Z)
    : result (list ShardHit) :=
  match searcher c with
  | None => Raise (AttributeError "'NoneType' object has no attribute 'search'")
  | Some s =>
      match searcher_search s query k with
      | Ok hits => Ok ((λ hit, mkShardHit (hit_docid hit) (hit_score hit)) <$> hits)
      | Raise tag => Raise (BackendError tag)
      end
  end.

(** The backend a task of [sharded_search] works with for its shard: the
    handle's own, or the HNSW one that [add_index] constructs from the
    caller's [ef_search] and [encoder] when the shard has no loaded handle. *)
Definition resolved_shard_searcher (shard_name : string) (ef_search : Z) (encoder : string)
    (w : World Score) : backend (option (Searcher Score)) :=
  let provisioned :=
    LuceneHnswDenseSearcher_from_prebuilt_index ext shard_name
      (Some ef_search) (Some encoder) in
  match indexes w !! shard_name with
  | None => provisioned
  | Some c =>
      match searcher c with
      | None => provisioned
      | Some s => Ok (Some s)
      end
  end.

(** The answer of that backend to [search(query, k)], as a shard task
    returns it: [(docid, score)] for each hit, or the error. *)
Definition shard_reply (resolved : backend (option (Searcher Score)))
    (query : string) (k : Z) : result (list ShardHit) :=
  match resolved with
  | Raise tag => Raise (BackendError tag)
  | Ok None => Raise (AttributeError "'NoneType' object has no attribute 'search'")
  | Ok (Some s) =>
      match searcher_search s query k with
      | Ok hits => Ok ((λ hit, mkShardHit (hit_docid hit) (hit_score hit)) <$> hits)
      | Raise tag => Raise (BackendError tag)
      end
  end.

(** What the task of one shard returns when run on [w], or its error. *)
Definition shard_outcome (shard_name query : string) (k : Z)
    (ef_search : Z) (encoder : string) (w : World Score) : result (list ShardHit) :=
  (_search_single_shard shard_name query k ef_search encoder w).1.

Definition shard_results (shard_name query : string) (k : Z)
    (ef_search : Z) (encoder : string) (w : World Score) : list ShardHit :=
  match shard_outcome shard_name query k ef_search encoder w with
  | Ok shard_results => shard_results
  | Raise _ => []
  end.

(** The union of the result lists of all shards, in the order of [SHARDS]. *)
Definition candidate_pool (query : string) (k : Z) (ef_search : Z) (encoder : string)
    (w : World Score) : list ShardHit :=
  concat ((λ shard_name, shard_results shard_name query k ef_search encoder w) <$> SHARDS).

(** [x] does not score below [y]. *)
Definition not_below (x y : ShardHit) : Prop :=
  score_ltb (sh_score x) (sh_score y) = false.

(** Scores are comparable: [<] is a strict weak order on them (floats
    without NaN). *)
Record StrictWeakOrder : Prop := {
  swo_irrefl : ∀ a, score_ltb a a = false;
  swo_trans : ∀ a b c, score_ltb a b = true → score_ltb b c = true → score_ltb a c = true;
  swo_incomp : ∀ a b c, score_ltb a b = false → score_ltb b c = false → score_ltb a c = false;
}.

(** *** Documents, status and settings *)

(** Assignment to an attribute of the handle registered under [key]:
    the handle is an object shared with the registry, so the registry
    sees the new value. *)
Definition setattr (key : string) (f : Config → Config) : Ctl unit :=
  λ w, (Ok (), mkWorld (alter f key (indexes w)) (trace w)).

Record DocumentResponse := mkDocumentResponse {
  dr_docid : string;
  dr_text : json;
}.

(** The backend [get_document] works with: the handle's own, or the
    lexical one it loads when the handle has none. *)
Definition resolved_searcher (c : Config) : backend (option (Searcher Score)) :=
  match searcher c with
  | Some s => Ok (Some s)
  | None => LuceneSearcher_from_prebuilt_index ext (name c)
  end.

(** [get_document(self, docid, index_name)] *)
Definition get_document (docid index_name : string) : Ctl DocumentResponse :=
  index_config <- indexes_getitem index_name;;
  loaded <-
    match searcher index_config with
    | None =>
        emit (EvLoadLucene (name index_config));;;
        s <- call (LuceneSearcher_from_prebuilt_index ext (name index_config));;
        setattr index_name (λ c, set_searcher c s);;;
        ret s
    | Some s => ret (Some s)
    end;;
  doc <-
    match loaded with
    | None => raise (AttributeError "'NoneType' object has no attribute 'doc'")
    | Some s => emit (EvDoc index_name docid);;; call (searcher_doc s docid)
    end;;
  match doc with
  | None =>
      raise (ValueError (not_found_msg docid index_name))
  | Some d =>
      raw <- json_loads_call (doc_raw d);;
      contents <- of_result (json_getitem raw "contents");;
      ret (mkDocumentResponse docid contents)
  end.

(** The text of a stored document: [json.loads(doc.raw())["contents"]]. *)
Definition payload_text (docid : string) (d : Document)
    : result (DocumentResponse) :=
  match doc_raw d with
  | None => Raise (TypeError "the JSON object must be str, bytes or bytearray, not NoneType")
  | Some text =>
      match json_loads ext text with
      | None => Raise JSONDecodeError
      | Some v =>
          match json_getitem v "contents" with
          | Ok contents => Ok (mkDocumentResponse docid contents)
          | Raise e => Raise e
          end
      end
  end.

(** [get_status(self, index_name)].  A catalog entry holds at least its
    size, so it is a non-empty dictionary and tests true. *)
Definition get_status (index_name : string) : Ctl (gmap string PyVal) :=
  let status : gmap string PyVal := ∅ in
  let status := <["downloaded" := PyBool (check_downloaded ext index_name)]> status in
  let status :=
    <["size compressed (bytes)" :=
        match TF_INDEX_INFO ext !! index_name with
        | Some info => PyInt (size_compressed info)
        | None => PyStr "Not available"
        end]> status in
  ret status.

(** [int(ef_search)] *)
Definition int_call (text : string) : Ctl Z :=
  match py_int ext text with
  | Some n => ret n
  | None => raise (ValueError (invalid_literal_msg text))
  end.

(** The argument [ef_search] after [int]: [None] when the conversion
    fails, [Some None] when no value was provided. *)
Definition converted (ef : option string) : option (option Z) :=
  match ef with
  | None => Some None
  | Some text => Some <$> py_int ext text
  end.

(** [update_settings(self, index_name, ef_search, encoder, query_generator)] *)
Definition update_settings (index_name : string)
    (ef_search : option string) (encoder query_generator : option string)
    : Ctl unit :=
  index_config <- indexes_getitem index_name;;
  if negb (truthy index_config) then
    raise (ValueError (not_available_msg index_name))
  else
    match ef_search with
    | Some text =>
        n <- int_call text;;
        setattr index_name (λ c, set_ef_search c (Some n))
    | None => ret ()
    end;;;
    match encoder with
    | Some e => setattr index_name (λ c, set_encoder c (Some e))
    | None => ret ()
    end;;;
    match query_generator with
    | Some g => setattr index_name (λ c, set_query_generator c (Some g))
    | None => ret ()
    end.

(** [get_settings(self, index_name)] *)
Definition get_settings (index_name : string) : Ctl (gmap string PyVal) :=
  index_config <- indexes_getitem index_name;;
  if negb (truthy index_config) then
    raise (ValueError (not_available_msg index_name))
  else
    let settings : gmap string PyVal := ∅ in
    let settings :=
      match ef_search index_config with
      | Some n => <["efSearch" := PyInt n]> settings
      | None => settings
      end in
    let settings :=
      match encoder index_config with
      | Some e => <["encoder" := PyStr e]> settings
      | None => settings
      end in
    let settings :=
      match query_generator index_config with
      | Some g => <["queryGenerator" := PyStr g]> settings
      | None => settings
      end in
    ret settings.
(** *** The loop of [search], hit by hit *)

(** [json.loads(hit.lucene_document.get("raw"))["contents"]] for one hit. *)
Definition hit_contents (hit : Hit Score) : result json :=
  match hit_raw hit with
  | None => Raise (TypeError "the JSON object must be str, bytes or bytearray, not NoneType")
  | Some text =>
      match json_loads ext text with
      | None => Raise JSONDecodeError
      | Some v => json_getitem v "contents"
      end
  end.

(** What the loop over the hits leaves in [candidates], or the exception
    of the first hit whose payload does not yield its contents. *)
Fixpoint candidates_of (hits : list (Hit Score)) : result (list Candidate) :=
  match hits with
  | [] => Ok []
  | hit :: rest =>
      match hit_contents hit with
      | Raise e => Raise e
      | Ok contents =>
          match candidates_of rest with
          | Raise e => Raise e
          | Ok more => Ok (mkCandidate (hit_docid hit) (hit_score hit) contents :: more)
          end
      end
  end.

(** [x] ties with the score [v]: neither is below the other. *)
Definition tied_with (v : Score) (x : ShardHit) : bool :=
  negb (score_ltb (sh_score x) v) && negb (score_ltb v (sh_score x)).

(** *** The methods as calls on one controller *)

(** A call of a public method with its arguments; for [sharded_search]
    also the order in which the futures complete. *)
Inductive Call :=
  | CallAddIndex (config : Config)
  | CallInitializeDefaultIndex (default_index : string)
  | CallGetIndexes
  | CallSearch (query index_name : string) (k : Z) (qid : string)
      (ef_search : option Z) (encoder query_generator : option string)
  | CallShardedSearch (order : list string) (query : string) (k : Z)
      (ef_search : Z) (encoder : string)
  | CallGetDocument (docid index_name : string)
  | CallGetStatus (index_name : string)
  | CallUpdateSettings (index_name : string)
      (ef_search : option string) (encoder query_generator : option string)
  | CallGetSettings (index_name : string).

(** The controller after a call, whether the call returned or raised. *)
Definition after_call (call : Call) (w : World Score) : World Score :=
  match call with
  | CallAddIndex config => (add_index config w).2
  | CallInitializeDefaultIndex default_index => (initialize_default_index default_index w).2
  | CallGetIndexes => (get_indexes w).2
  | CallSearch query index_name k qid ef enc qg =>
      (search query index_name k qid ef enc qg w).2
  | CallShardedSearch order query k ef enc => (sharded_search order query k ef enc w).2
  | CallGetDocument docid index_name => (get_document docid index_name w).2
  | CallGetStatus index_name => (get_status index_name w).2
  | CallUpdateSettings index_name ef enc qg => (update_settings index_name ef enc qg w).2
  | CallGetSettings index_name => (get_settings index_name w).2
  end.

(** The controllers a program can see: [SearchController()] followed by
    any calls. *)
Inductive reachable : World Score → Prop :=
  | reachable_new : reachable (mkWorld ∅ [])
  | reachable_call call w : reachable w → reachable (after_call call w).

(** Every handle is registered under its own name, and that name is a
    shard or an index of the lexical catalog. *)
Definition registry_ok (w : World Score) : Prop :=
  ∀ key c, indexes w !! key = Some c →
           name c = key ∧ (key ∈ SHARDS ∨ is_Some (TF_INDEX_INFO ext !! key)).

(** From [w] to [w'] a well-formed registry stays well-formed and no
    registered name is lost. *)
Definition keeps_registry (w w' : World Score) : Prop :=
  (registry_ok w → registry_ok w') ∧ dom (indexes w) ⊆ dom (indexes w').
End Controller.

(** * Part II: a small installation to run the controller on

    Integer scores, one lexical index, the ten shards, and the two builtins
    [int] and [json.loads] on ASCII text. *)
Module Demo.
Definition dquote : ascii := ascii_of_nat 34.
Definition backslash : ascii := ascii_of_nat 92.

(** White space for [int]: what [str.isspace] accepts among ASCII. *)
Definition is_space (c : ascii) : bool :=
  let n := nat_of_ascii c in
  bool_decide (n = 32 ∨ 9 ≤ n ≤ 13 ∨ 28 ≤ n ≤ 31)%nat.

Fixpoint skip_space (s : string) : string :=
  match s with
  | String c rest => if is_space c then skip_space rest else s
  | EmptyString => s
  end.

Definition digit_of (c : ascii) : option Z :=
  let n := nat_of_ascii c in
  if bool_decide (48 ≤ n ≤ 57)%nat then Some (Z.of_nat n - 48) else None.

(** *** [int] on ASCII text: surrounding whitespace, an optional sign,
    decimal digits with single underscores between them. *)
Fixpoint int_digits (acc : Z) (after_digit : bool) (s : string) : option Z :=
  match s with
  | EmptyString => if after_digit then Some acc else None
  | String c rest =>
      match digit_of c with
      | Some d => int_digits (10 * acc + d) true rest
      | None =>
          if after_digit && bool_decide (c = "_"%char) then int_digits acc false rest
          else if after_digit && is_space c then
            match skip_space rest with
            | EmptyString => Some acc
            | _ => None
            end
          else None
      end
  end.

Definition ascii_int (text : string) : option Z :=
  match skip_space text with
  | String "-" rest => Z.opp <$> int_digits 0 false rest
  | String "+" rest => int_digits 0 false rest
  | s => int_digits 0 false s
  end.

(** *** [json.loads] on ASCII text; [\u] escapes in strings are outside
    the fragment. *)

(** White space of JSON: space, tab, line feed, carriage return. *)
Definition is_json_space (c : ascii) : bool :=
  let n := nat_of_ascii c in
  bool_decide (n = 32 ∨ n = 9 ∨ n = 10 ∨ n = 13)%nat.

Fixpoint skip_json_space (s : string) : string :=
  match s with
  | String c rest => if is_json_space c then skip_json_space rest else s
  | EmptyString => s
  end.

(** The character an escape stands for, after its backslash. *)
Definition unescape (c : ascii) : option ascii :=
  if bool_decide (c = dquote) then Some dquote
  else if bool_decide (c = backslash) then Some backslash
  else if bool_decide (c = "/"%char) then Some "/"%char
  else if bool_decide (c = "b"%char) then Some (ascii_of_nat 8)
  else if bool_decide (c = "f"%char) then Some (ascii_of_nat 12)
  else if bool_decide (c = "n"%char) then Some (ascii_of_nat 10)
  else if bool_decide (c = "r"%char) then Some (ascii_of_nat 13)
  else if bool_decide (c = "t"%char) then Some (ascii_of_nat 9)
  else None.

(** The characters of a string literal, after its opening quote; control
    characters must be escaped. *)
Fixpoint string_body (s : string) : option (string * string) :=
  match s with
  | EmptyString => None
  | String c rest =>
      if bool_decide (c = dquote) then Some (EmptyString, rest)
      else if bool_decide (c = backslash) then
        match rest with
        | String e rest' =>
            u ← unescape e;
            '(body, rest'') ← string_body rest';
            Some (String u body, rest'')
        | EmptyString => None
        end
      else if bool_decide (nat_of_ascii c < 32)%nat then None
      else '(body, rest') ← string_body rest; Some (String c body, rest')
  end.

(** The longest run of digits at the head of a text. *)
Fixpoint digits_prefix (s : string) : string * string :=
  match s with
  | String c rest =>
      match digit_of c with
      | Some _ => let '(ds, rest') := digits_prefix rest in (String c ds, rest')
      | None => (EmptyString, s)
      end
  | EmptyString => (EmptyString, EmptyString)
  end.

(** A number: an optional minus; then 0, or a digit from 1 to 9 followed
    by digits; then, if they are complete, a fraction (a point and digits)
    and an exponent (e or E, an optional sign, digits).  The longest match
    at the head of the text. *)
Definition number (s : string) : option (string * string) :=
  let '(sign, s) :=
    match s with
    | String "-" rest => ("-", rest)
    | _ => (EmptyString, s)
    end in
  '(whole, s) ←
    match s with
    | String "0" rest => Some ("0", rest)
    | String c _ =>
        match digit_of c with
        | Some _ => Some (digits_prefix s)
        | None => None
        end
    | EmptyString => None
    end;
  let '(fraction, s) :=
    match s with
    | String "." rest =>
        match digits_prefix rest with
        | (EmptyString, _) => (EmptyString, s)
        | (ds, rest') => ("." +:+ ds, rest')
        end
    | _ => (EmptyString, s)
    end in
  let '(exponent, s) :=
    match s with
    | String e rest =>
        if bool_decide (e = "e"%char ∨ e = "E"%char) then
          let '(esign, rest') :=
            match rest with
            | String "-" r => ("-", r)
            | String "+" r => ("+", r)
            | _ => (EmptyString, rest)
            end in
          match digits_prefix rest' with
          | (EmptyString, _) => (EmptyString, s)
          | (ds, rest'') => (String e (esign +:+ ds), rest'')
          end
        else (EmptyString, s)
    | EmptyString => (EmptyString, s)
    end in
  Some (sign +:+ whole +:+ fraction +:+ exponent, s).

Definition literal (word : string) (v : json) (s : string) : option (json * string) :=
  if String.prefix word s
  then Some (v, String.substring (String.length word) (String.length s) s)
  else None.

(** [d[key] = v] on a dictionary kept as a list: a key that is there
    keeps its place and gets the new value. *)
Fixpoint dict_set (key : string) (v : json) (fields : list (string * json))
    : list (string * json) :=
  match fields with
  | [] => [(key, v)]
  | (k, x) :: rest =>
      if decide (k = key) then (k, v) :: rest else (k, x) :: dict_set key v rest
  end.

(** The dictionary of the members of an object, read left to right: of a
    repeated key the last value stays. *)
Definition to_dict (members : list (string * json)) : list (string * json) :=
  foldl (λ d kv, dict_set kv.1 kv.2 d) [] members.

(** The members of an object, after ["{"] or [","]. *)
Fixpoint members (value : string → option (json * string)) (fuel : nat) (s : string)
    : option (list (string * json) * string) :=
  match fuel with
  | O => None
  | S fuel =>
      match skip_json_space s with
      | String c rest =>
          if bool_decide (c = dquote) then
            '(key, rest) ← string_body rest;
            match skip_json_space rest with
            | String ":" rest =>
                '(v, rest) ← value rest;
                match skip_json_space rest with
                | String "," rest =>
                    '(more, rest) ← members value fuel rest;
                    Some ((key, v) :: more, rest)
                | String "}" rest => Some ([(key, v)], rest)
                | _ => None
                end
            | _ => None
            end
          else None
      | EmptyString => None
      end
  end.

(** The items of an array, after ["["] or [","]. *)
Fixpoint items (value : string → option (json * string)) (fuel : nat) (s : string)
    : option (list json * string) :=
  match fuel with
  | O => None
  | S fuel =>
      '(v, rest) ← value s;
      match skip_json_space rest with
      | String "," rest => '(more, rest) ← items value fuel rest; Some (v :: more, rest)
      | String "]" rest => Some ([v], rest)
      | _ => None
      end
  end.

Fixpoint value (fuel : nat) (s : string) : option (json * string) :=
  match fuel with
  | O => None
  | S fuel =>
      match skip_json_space s with
      | EmptyString => None
      | String c rest as s' =>
          if bool_decide (c = dquote) then
            '(body, rest) ← string_body rest; Some (JStr body, rest)
          else if bool_decide (c = "{"%char) then
            match skip_json_space rest with
            | String "}" rest => Some (JObj [], rest)
            | _ => '(fields, rest) ← members (value fuel) (String.length s) rest;
                   Some (JObj (to_dict fields), rest)
            end
          else if bool_decide (c = "["%char) then
            match skip_json_space rest with
            | String "]" rest => Some (JArr [], rest)
            | _ => '(vs, rest) ← items (value fuel) (String.length s) rest;
                   Some (JArr vs, rest)
            end
          else
            match number s' with
            | Some (text, rest) => Some (JNum text, rest)
            | None =>
                let words :=
                  [("true", JBool true); ("false", JBool false); ("null", JNull);
                   ("NaN", JNum "NaN"); ("Infinity", JNum "Infinity");
                   ("-Infinity", JNum "-Infinity")] in
                foldr (λ '(word, v) other,
                         match literal word v s' with
                         | Some r => Some r
                         | None => other
                         end) None words
            end
      end
  end.

Definition ascii_json_loads (text : string) : option json :=
  '(v, rest) ← value (String.length text) text;
  match skip_json_space rest with
  | EmptyString => Some v
  | _ => None
  end.

(** *** Stored payloads *)
Definition quoted (s : string) : string :=
  String dquote s +:+ String dquote EmptyString.

(** The text [{"contents": <text>}] with [text] in quotes. *)
Definition payload (text : string) : string :=
  "{" +:+ quoted "contents" +:+ ": " +:+ quoted text +:+ "}".

(** *** Backends *)

(** The lexical index holds two passages. *)
Definition passage_searcher : Searcher Z := {|
  searcher_search query k :=
    Ok (take (Z.to_nat k)
          [mkHit "7187158" 12 (Some (payload "hello world"));
           mkHit "7187157" 7 (Some (payload "second passage"))]);
  searcher_doc docid :=
    if bool_decide (docid = "7187158") then
      Ok (Some (mkDocument (Some (payload "hello world"))))
    else if bool_decide (docid = "7187157") then
      Ok (Some (mkDocument (Some (payload "second passage"))))
    else Ok None;
|}.

(** Shard [i] holds three documents with scores [100 - i], [50 - i] and [i]. *)
Definition shard_searcher (i : nat) : Searcher Z := {|
  searcher_search query k :=
    Ok (take (Z.to_nat k)
          [mkHit ("doc" +:+ pretty i +:+ "a") (100 - Z.of_nat i) None;
           mkHit ("doc" +:+ pretty i +:+ "b") (50 - Z.of_nat i) None;
           mkHit ("doc" +:+ pretty i +:+ "c") (Z.of_nat i) None]);
  searcher_doc docid := Ok None;
|}.

(** A backend whose index cannot be read. *)
Definition broken_searcher : Searcher Z := {|
  searcher_search query k := Raise "index unreadable";
  searcher_doc docid := Raise "index unreadable";
|}.

Definition ext : Externals Z := {|
  TF_INDEX_INFO := {[ DEFAULT_INDEX := mkIndexInfo 2170758938 ]};
  LUCENE_HNSW_INDEX_INFO :=
    list_to_map ((λ s, (s, mkIndexInfo 27000000000)) <$> SHARDS);
  check_downloaded n := bool_decide (n = DEFAULT_INDEX);
  LuceneSearcher_from_prebuilt_index n :=
    if bool_decide (n = DEFAULT_INDEX) then Ok (Some passage_searcher)
    else Raise "unrecognized index name";
  LuceneHnswDenseSearcher_from_prebuilt_index n ef enc :=
    match list_find (λ s, s = n) SHARDS with
    | Some (i, _) => Ok (Some (shard_searcher i))
    | None => Raise "unrecognized index name"
    end;
  json_loads := ascii_json_loads;
  py_int := ascii_int;
|}.

(** *** Controllers *)

(** A controller just constructed. *)
Definition new_controller : World Z := mkWorld ∅ [].

(** The controller of the module: [controller.initialize_default_index()]. *)
Definition controller : World Z :=
  (initialize_default_index ext DEFAULT_INDEX new_controller).2.

Definition shard (i : nat) : string := shard_name_of i.

(** A controller in which shard 3 is registered with a broken backend. *)
Definition controller_broken_shard : World Z :=
  mkWorld {[ shard 3 := mkIndexConfig (shard 3) None (Some 100) (Some "arctic") None
                            (Some broken_searcher) ]} [].

(** The controller after its default index was given a search width and
    a query generator. *)
Definition controller_with_settings : World Z :=
  (update_settings ext DEFAULT_INDEX (Some "100") None (Some "rm3") controller).2.

(** The handles of the default index in [controller] and in
    [controller_with_settings]. *)
Definition default_handle : IndexConfig Z :=
  mkIndexConfig DEFAULT_INDEX None None None None (Some passage_searcher).
Definition default_handle_with_settings : IndexConfig Z :=
  mkIndexConfig DEFAULT_INDEX None (Some 100) None (Some "rm3") (Some passage_searcher).
(** An installation without network: no index can be fetched. *)
Definition ext_offline : Externals Z := {|
  TF_INDEX_INFO := TF_INDEX_INFO ext;
  LUCENE_HNSW_INDEX_INFO := LUCENE_HNSW_INDEX_INFO ext;
  check_downloaded n := false;
  LuceneSearcher_from_prebuilt_index n := Raise "download failed";
  LuceneHnswDenseSearcher_from_prebuilt_index n ef enc := Raise "download failed";
  json_loads := ascii_json_loads;
  py_int := ascii_int;
|}.

(** A handle of the default index whose backend is not loaded, and a
    controller that holds it. *)
Definition unloaded_handle : IndexConfig Z :=
  mkIndexConfig DEFAULT_INDEX None (Some 5) (Some "old") None None.
Definition controller_unloaded : World Z :=
  mkWorld {[ DEFAULT_INDEX := unloaded_handle ]} [].

(** A backend with a passage whose payload lacks the contents field. *)
Definition damaged_searcher : Searcher Z := {|
  searcher_search query k :=
    Ok [mkHit "7187158" 12 (Some (payload "hello world"));
        mkHit "7187159" 9 (Some "{}");
        mkHit "7187157" 7 (Some (payload "second passage"))];
  searcher_doc docid := Ok None;
|}.
Definition damaged_handle : IndexConfig Z :=
  mkIndexConfig DEFAULT_INDEX None None None None (Some damaged_searcher).
Definition controller_damaged : World Z :=
  mkWorld {[ DEFAULT_INDEX := damaged_handle ]} [].

(** A backend that does not look at [k]: it always returns its one
    document, of score [i]. *)
Definition single_searcher (i : nat) : Searcher Z := {|
  searcher_search query k := Ok [mkHit ("only" +:+ pretty i) (Z.of_nat i) None];
  searcher_doc docid := Ok None;
|}.

(** A controller in which every shard is loaded with such a backend. *)
Definition controller_single_shards : World Z :=
  mkWorld
    (list_to_map
       ((λ i, (shard i, mkIndexConfig (shard i) None None None None
                          (Some (single_searcher i)))) <$> seq 0 10))
    [].
End Demo.

(** * Part III: properties *)

Ltac unfold_ctl :=
  unfold bind, ret, raise, of_result, indexes_get, indexes_set,
    indexes_getitem, emit, call, setattr in *.

Section Properties.
Context {Score : Type} (score_ltb : Score → Score → bool).
Context (ext : Externals Score).

Implicit Types (w : World Score) (c config : IndexConfig Score).

(** ** [add_index] *)

Lemma add_index_raises_unsupported config w :
  name config ∉ SHARDS →
  TF_INDEX_INFO ext !! name config = None →
  add_index ext config w = (Raise (ValueError (unsupported_msg (name config))), w).
Proof.
  intros Hshard Htf. unfold add_index.
  rewrite bool_decide_eq_false_2 by done.
  rewrite bool_decide_eq_false_2 by (rewrite Htf; by intros [? ?]).
  reflexivity.
Qed.

(** [add_index] writes the entry of the configured name only. *)
Lemma add_index_frame config w j :
  j ≠ name config →
  indexes (add_index ext config w).2 !! j = indexes w !! j.
Proof.
  intros Hj. unfold add_index.
  case_bool_decide; [|case_bool_decide]; unfold_ctl; simpl.
  - destruct (LuceneHnswDenseSearcher_from_prebuilt_index _ _ _ _); simpl; [|done].
    by rewrite lookup_insert_ne.
  - destruct (LuceneSearcher_from_prebuilt_index _ _); simpl; [|done].
    by rewrite lookup_insert_ne.
  - done.
Qed.

(** When [add_index] returns, the handle it returns is the one it stored. *)
Lemma add_index_Ok config w c w' :
  add_index ext config w = (Ok c, w') →
  name c = name config ∧ path c = path config ∧
  ef_search c = ef_search config ∧ encoder c = encoder config ∧
  query_generator c = query_generator config ∧
  indexes w' = <[name config := c]> (indexes w).
Proof.
  unfold add_index.
  case_bool_decide; [|case_bool_decide]; unfold_ctl; simpl.
  - destruct (LuceneHnswDenseSearcher_from_prebuilt_index _ _ _ _); simpl; [|done].
    intros [= <- <-]. done.
  - destruct (LuceneSearcher_from_prebuilt_index _ _); simpl; [|done].
    intros [= <- <-]. done.
  - done.
Qed.

(** The handle [search] and the shard tasks work with: the registered one
    when its backend is loaded, a freshly provisioned one otherwise. *)
Lemma or_add_index_loaded w c s fresh :
  searcher c = Some s →
  or_add_index ext (Some c) fresh w = (Ok c, w).
Proof. intros Hs. unfold or_add_index. simpl. by rewrite Hs. Qed.

Lemma or_add_index_not_loaded w found fresh :
  (∀ c, found = Some c → searcher c = None) →
  or_add_index ext found fresh w = add_index ext fresh w.
Proof.
  intros Hnone. unfold or_add_index. destruct found as [c|]; [|done].
  simpl. by rewrite (Hnone c eq_refl).
Qed.

(** C4. Provisioning a name that is in neither the shard list nor the
    lexical prebuilt catalog fails with the "not currently supported"
    [ValueError] and leaves the controller (registry and trace) exactly as
    it was; [search], which provisions lazily through [add_index], passes
    that same error on to its caller without touching the registry. *)
Theorem add_index_unsupported config w :
  name config ∉ SHARDS →
  TF_INDEX_INFO ext !! name config = None →
  add_index ext config w = (Raise (ValueError (unsupported_msg (name config))), w) ∧
  ∀ query k qid ef enc qg,
    (∀ c, indexes w !! name config = Some c → searcher c = None) →
    search ext query (name config) k qid ef enc qg w
    = (Raise (ValueError (unsupported_msg (name config))), w).
Proof.
  intros Hshard Htf. split; [by apply add_index_raises_unsupported|].
  intros query k qid ef enc qg Hnone.
  unfold search. unfold bind at 1. unfold indexes_get at 1.
  unfold bind at 1. rewrite or_add_index_not_loaded by done.
  by rewrite add_index_raises_unsupported.
Qed.

(** Building the candidates reads the hits only. *)
Lemma collect_candidates_pure hits w :
  (collect_candidates ext hits w).2 = w.
Proof.
  revert w. induction hits as [|hit rest IH]; intros w; [done|].
  simpl. unfold json_loads_call, bind at 1.
  destruct (hit_raw hit) as [t|]; [|done].
  destruct (json_loads ext t) as [v|]; [|done].
  unfold_ctl. destruct (json_getitem v "contents"); [|done].
  specialize (IH w).
  destruct (collect_candidates ext rest w) as [[?|?] ?]; simpl in *; by subst.
Qed.

(** [search] on a handle whose backend is loaded. *)
Lemma search_loaded query index_name k qid ef enc qg w c s :
  indexes w !! index_name = Some c →
  searcher c = Some s →
  (search ext query index_name k qid ef enc qg w).2
  = mkWorld (indexes w) (trace w ++ [EvSearch index_name query k]).
Proof.
  intros Hc Hs. unfold search, bind at 1, indexes_get at 1. rewrite Hc.
  unfold bind at 1. rewrite (or_add_index_loaded _ _ s) by done.
  unfold bind at 1, searcher_search_call. rewrite Hs.
  unfold bind at 2, emit at 1, call.
  destruct (searcher_search s query k) as [hits|tag]; [|done].
  unfold bind, ret.
  match goal with |- context [collect_candidates ext hits ?w1] =>
    pose proof (collect_candidates_pure hits w1) as Hcoll;
    destruct (collect_candidates ext hits w1) as [[?|?] ?]
  end; simpl in *; by subst.
Qed.

(** C3. When the registry already holds a handle with a loaded backend
    under [index_name], [search] leaves the registry as it is and adds
    exactly one event to the trace, the query put to that handle's
    backend: nothing is loaded. *)
Theorem search_loaded_no_reload query index_name k qid ef enc qg w c s :
  indexes w !! index_name = Some c →
  searcher c = Some s →
  let w' := (search ext query index_name k qid ef enc qg w).2 in
  indexes w' = indexes w ∧
  trace w' = trace w ++ [EvSearch index_name query k] ∧
  filter is_load (trace w') = filter is_load (trace w).
Proof.
  intros Hc Hs. simpl. rewrite (search_loaded _ _ _ _ _ _ _ _ c s) by done.
  simpl. split_and!; [done..|].
  rewrite filter_app. simpl. by rewrite app_nil_r.
Qed.

(** ** Settings *)

(** What [get_settings] returns for a handle. *)
Lemma get_settings_fields index_name w c :
  indexes w !! index_name = Some c →
  ∃ m, get_settings index_name w = (Ok m, w) ∧
       m !! "efSearch" = PyInt <$> ef_search c ∧
       m !! "encoder" = PyStr <$> encoder c ∧
       m !! "queryGenerator" = PyStr <$> query_generator c ∧
       ∀ key, key ∉ ["efSearch"; "encoder"; "queryGenerator"] → m !! key = None.
Proof.
  intros Hc. unfold get_settings, bind, indexes_getitem. rewrite Hc. simpl.
  eexists. split; [reflexivity|].
  destruct (ef_search c), (encoder c), (query_generator c); simpl;
    (split_and!; [done..|]); intros key Hkey;
    repeat (rewrite lookup_insert_ne by set_solver); done.
Qed.

(** C6. For a registered handle [get_settings] returns, without touching
    the controller, a mapping that holds each of efSearch, encoder and
    queryGenerator exactly when the handle's field is set, with the
    field's value and never [None], and no other key.  For a handle just
    created by [add_index] from a configuration without settings the
    mapping is empty. *)
Theorem get_settings_only_set_fields index_name w c :
  indexes w !! index_name = Some c →
  ∃ m, get_settings index_name w = (Ok m, w) ∧
       m !! "efSearch" = PyInt <$> ef_search c ∧
       m !! "encoder" = PyStr <$> encoder c ∧
       m !! "queryGenerator" = PyStr <$> query_generator c ∧
       (∀ key, key ∉ ["efSearch"; "encoder"; "queryGenerator"] → m !! key = None) ∧
       (∀ key, m !! key ≠ Some PyNone) ∧
       (∀ p w0, add_index ext (IndexConfig_new index_name p None None None) w0 = (Ok c, w) →
                m = ∅).
Proof.
  intros Hc. destruct (get_settings_fields _ _ _ Hc) as (m & Hrun & Hef & Henc & Hqg & Hrest).
  exists m. split_and!; try done.
  - intros key Hkey.
    destruct (decide (key ∈ ["efSearch"; "encoder"; "queryGenerator"])) as [Hin|Hout].
    + repeat (apply elem_of_cons in Hin as [->|Hin]);
        [rewrite Hef in Hkey; by destruct (ef_search c)
        |rewrite Henc in Hkey; by destruct (encoder c)
        |rewrite Hqg in Hkey; by destruct (query_generator c)
        |by apply elem_of_nil in Hin].
    + by rewrite Hrest in Hkey.
  - intros p w0 Hadd. apply add_index_Ok in Hadd as (_ & _ & Hef' & Henc' & Hqg' & _).
    simpl in *. apply map_eq. intros key. rewrite lookup_empty.
    destruct (decide (key ∈ ["efSearch"; "encoder"; "queryGenerator"])) as [Hin|Hout].
    + repeat (apply elem_of_cons in Hin as [->|Hin]);
        [by rewrite Hef, Hef'|by rewrite Henc, Henc'|by rewrite Hqg, Hqg'
        |by apply elem_of_nil in Hin].
    + by apply Hrest.
Qed.

(** A settings call for a name without a handle: the subscript
    [self.indexes[index_name]] raises [KeyError] and nothing is written. *)
Lemma settings_unknown_index index_name ef enc qg w :
  indexes w !! index_name = None →
  update_settings ext index_name ef enc qg w = (Raise (KeyError index_name), w) ∧
  get_settings index_name w = (Raise (KeyError index_name), w).
Proof.
  intros Hnone. unfold update_settings, get_settings, bind, indexes_getitem.
  by rewrite Hnone.
Qed.

(** C5. Partial update.  For a registered handle and a provided
    searchWidth (if any) that is an integer, that is, that [int] converts,
    [update_settings] returns and the handle afterwards holds, in each of
    the three settings fields, the provided value if one was provided (the
    searchWidth as the integer it denotes) and the value it had before
    otherwise; name, path and backend, every other handle and the trace are
    as before, and a following [get_settings] reports exactly those
    fields. *)
Theorem update_settings_partial index_name ef enc qg w c ef' :
  indexes w !! index_name = Some c →
  converted ext ef = Some ef' →
  let c' := mkIndexConfig (name c) (path c)
              (overwrite ef' (ef_search c))
              (overwrite enc (encoder c))
              (overwrite qg (query_generator c))
              (searcher c) in
  let w' := mkWorld (<[index_name := c']> (indexes w)) (trace w) in
  update_settings ext index_name ef enc qg w = (Ok (), w') ∧
  ∃ m, get_settings index_name w' = (Ok m, w') ∧
       m !! "efSearch" = PyInt <$> overwrite ef' (ef_search c) ∧
       m !! "encoder" = PyStr <$> overwrite enc (encoder c) ∧
       m !! "queryGenerator" = PyStr <$> overwrite qg (query_generator c) ∧
       ∀ key, key ∉ ["efSearch"; "encoder"; "queryGenerator"] → m !! key = None.
Proof.
  intros Hc Hconv. simpl. split.
  - destruct w as [ix tr]. simpl in Hc.
    unfold update_settings, bind at 1, indexes_getitem. simpl. rewrite Hc. simpl.
    unfold converted in Hconv. destruct ef as [text|].
    + unfold int_call. destruct (py_int ext text) as [n|]; [|done].
      simpl in Hconv. injection Hconv as <-. unfold_ctl. simpl.
      destruct enc as [e|], qg as [g|]; simpl;
        rewrite <- (insert_id ix index_name c Hc) at 1;
        rewrite ?alter_insert_eq, ?insert_insert_eq; destruct c; reflexivity.
    + injection Hconv as <-. unfold_ctl. simpl.
      destruct enc as [e|], qg as [g|]; simpl;
        rewrite <- (insert_id ix index_name c Hc) at 1;
        rewrite ?alter_insert_eq, ?insert_insert_eq; destruct c; reflexivity.
  - set (c' := mkIndexConfig (name c) (path c) (overwrite ef' (ef_search c))
                 (overwrite enc (encoder c)) (overwrite qg (query_generator c))
                 (searcher c)).
    destruct (get_settings_fields index_name
                (mkWorld (<[index_name := c']> (indexes w)) (trace w)) c')
      as (m & Hget & Hfields); [apply lookup_insert_eq|].
    exists m. split; [exact Hget|exact Hfields].
Qed.

(** ** Status *)

(** C10. For every index name [get_status] returns, without touching the
    controller, a mapping with the two keys "downloaded" and
    "size compressed (bytes)": the first holds the boolean answer of
    [check_downloaded], the second the size recorded in the lexical
    prebuilt catalog when the name is there and the string "Not available"
    otherwise, in particular for a name that only the HNSW catalog knows. *)
Theorem get_status_report index_name w :
  ∃ status,
    get_status ext index_name w = (Ok status, w) ∧
    dom status = ({["downloaded"; "size compressed (bytes)"]} : gset string) ∧
    status !! "downloaded" = Some (PyBool (check_downloaded ext index_name)) ∧
    status !! "size compressed (bytes)"
    = Some (match TF_INDEX_INFO ext !! index_name with
            | Some info => PyInt (size_compressed info)
            | None => PyStr "Not available"
            end) ∧
    (is_Some (LUCENE_HNSW_INDEX_INFO ext !! index_name) →
     TF_INDEX_INFO ext !! index_name = None →
     status !! "size compressed (bytes)" = Some (PyStr "Not available")).
Proof.
  unfold get_status, ret. eexists. split; [reflexivity|].
  split_and!.
  - rewrite !dom_insert_L, dom_empty_L. set_solver.
  - rewrite lookup_insert_ne by done. apply lookup_insert_eq.
  - apply lookup_insert_eq.
  - intros _ Htf. rewrite lookup_insert_eq. by rewrite Htf.
Qed.

(** ** Documents *)

(** The result of [get_document], case by case. *)
Lemma get_document_result docid index_name w :
  (get_document ext docid index_name w).1 =
  match indexes w !! index_name with
  | None => Raise (KeyError index_name)
  | Some c =>
      match resolved_searcher ext c with
      | Raise tag => Raise (BackendError tag)
      | Ok None => Raise (AttributeError "'NoneType' object has no attribute 'doc'")
      | Ok (Some s) =>
          match searcher_doc s docid with
          | Raise tag => Raise (BackendError tag)
          | Ok None => Raise (ValueError (not_found_msg docid index_name))
          | Ok (Some d) => payload_text ext docid d
          end
      end
  end.
Proof.
  unfold get_document, bind at 1, indexes_getitem.
  destruct (indexes w !! index_name) as [c|]; [|done].
  unfold resolved_searcher, payload_text, json_loads_call.
  destruct (searcher c) as [s|].
  - unfold_ctl. simpl.
    destruct (searcher_doc s docid) as [[d|]|tag]; simpl; [|done..].
    destruct (doc_raw d) as [text|]; [|done].
    destruct (json_loads ext text) as [v|]; [|done].
    by destruct (json_getitem v "contents").
  - unfold_ctl. simpl.
    destruct (LuceneSearcher_from_prebuilt_index ext (name c)) as [[s|]|tag]; simpl;
      [|done..].
    destruct (searcher_doc s docid) as [[d|]|tag]; simpl; [|done..].
    destruct (doc_raw d) as [text|]; [|done].
    destruct (json_loads ext text) as [v|]; [|done].
    by destruct (json_getitem v "contents").
Qed.

Lemma payload_text_not_ValueError docid d msg :
  payload_text ext docid d ≠ Raise (ValueError msg).
Proof.
  unfold payload_text. destruct (doc_raw d) as [text|]; [|done].
  destruct (json_loads ext text) as [v|]; [|done].
  destruct v as [| | | | |fields]; simpl; try done.
  by destruct (assoc "contents" fields).
Qed.

(** C8. [get_document] fails with the "not found" [ValueError] exactly
    when the handle exists, its backend is available, and that backend
    answers [None] for the document id.  When the backend finds a
    document whose raw payload parses to an object with a "contents"
    field, the call returns the document id together with the value of
    that field. *)
Theorem get_document_found_or_not docid index_name w :
  ((get_document ext docid index_name w).1
     = Raise (ValueError (not_found_msg docid index_name)) ↔
   ∃ c s, indexes w !! index_name = Some c ∧
          resolved_searcher ext c = Ok (Some s) ∧
          searcher_doc s docid = Ok None) ∧
  (∀ c s d text fields contents,
     indexes w !! index_name = Some c →
     resolved_searcher ext c = Ok (Some s) →
     searcher_doc s docid = Ok (Some d) →
     doc_raw d = Some text →
     json_loads ext text = Some (JObj fields) →
     assoc "contents" fields = Some contents →
     (get_document ext docid index_name w).1
     = Ok (mkDocumentResponse docid contents)).
Proof.
  rewrite get_document_result. split; [split|].
  - destruct (indexes w !! index_name) as [c|]; [|done].
    destruct (resolved_searcher ext c) as [[s|]|tag] eqn:Hres; [|done..].
    destruct (searcher_doc s docid) as [[d|]|tag] eqn:Hdoc; [|by eauto|done].
    intros Hbad. by apply payload_text_not_ValueError in Hbad.
  - intros (c & s & -> & -> & ->). done.
  - intros c s d text fields contents -> -> -> Hraw Hjson Hfield.
    unfold payload_text. rewrite Hraw, Hjson. simpl. by rewrite Hfield.
Qed.

(** ** Sorting by score *)

Lemma insert_desc_Permutation x l : insert_desc score_ltb x l ≡ₚ x :: l.
Proof.
  induction l as [|y l IH]; simpl; [done|].
  destruct (score_ltb (sh_score x) (sh_score y)); [|done].
  rewrite IH. apply Permutation_swap.
Qed.

Lemma sort_by_score_desc_Permutation l : sort_by_score_desc score_ltb l ≡ₚ l.
Proof.
  induction l as [|x l IH]; simpl; [done|].
  by rewrite insert_desc_Permutation, IH.
Qed.

Section Sorted.
Hypothesis Hswo : StrictWeakOrder score_ltb.

Lemma not_below_of_above x y :
  score_ltb (sh_score x) (sh_score y) = true → not_below score_ltb y x.
Proof.
  intros Hxy. unfold not_below.
  destruct (score_ltb (sh_score y) (sh_score x)) eqn:Hyx; [|done].
  rewrite <- (swo_irrefl _ Hswo (sh_score x)).
  symmetry. by apply (swo_trans _ Hswo _ (sh_score y)).
Qed.

Lemma insert_desc_sorted x l :
  StronglySorted (not_below score_ltb) l →
  StronglySorted (not_below score_ltb) (insert_desc score_ltb x l).
Proof.
  induction 1 as [|y l Hl IH Hy]; simpl.
  - repeat constructor.
  - destruct (score_ltb (sh_score x) (sh_score y)) eqn:Hxy.
    + constructor; [done|].
      rewrite insert_desc_Permutation. constructor; [|done].
      by apply not_below_of_above.
    + constructor; [by constructor|].
      constructor; [done|].
      eapply Forall_impl; [exact Hy|]. intros z Hz.
      by apply (swo_incomp _ Hswo _ (sh_score y)).
Qed.

Lemma sort_by_score_desc_sorted l :
  StronglySorted (not_below score_ltb) (sort_by_score_desc score_ltb l).
Proof.
  induction l as [|x l IH]; simpl; [constructor|].
  by apply insert_desc_sorted.
Qed.

(** The first [n] entries of the sorted pool are its [n] best: they are
    in descending order and nothing left out scores above any of them. *)
Lemma top_of_sorted n pool :
  let sorted := sort_by_score_desc score_ltb pool in
  take n sorted ++ drop n sorted ≡ₚ pool ∧
  StronglySorted (not_below score_ltb) (take n sorted) ∧
  (∀ x y, x ∈ take n sorted → y ∈ drop n sorted → not_below score_ltb x y) ∧
  length (take n sorted) = (n `min` length pool)%nat.
Proof.
  intros sorted.
  pose proof (sort_by_score_desc_sorted pool) as Hsorted. fold sorted in Hsorted.
  rewrite <- (take_drop n sorted) in Hsorted.
  apply StronglySorted_app in Hsorted as (Hdom & Htake & _).
  subst sorted. split_and!; [|done|done|].
  - by rewrite take_drop, sort_by_score_desc_Permutation.
  - rewrite length_take. f_equal.
    apply Permutation_length, sort_by_score_desc_Permutation.
Qed.
End Sorted.

(** ** Shard tasks *)

(** What [add_index] does to the controller: it writes at most the entry
    of the configured name, adds load events only, and its result does not
    depend on the controller it runs on. *)
Lemma add_index_effect config w :
  ∃ r evs ix,
    add_index ext config w = (r, mkWorld ix (trace w ++ evs)) ∧
    (∀ j, j ≠ name config → ix !! j = indexes w !! j) ∧
    Forall (λ ev, is_load ev = true) evs ∧
    (∀ w2, (add_index ext config w2).1 = r).
Proof.
  unfold add_index.
  case_bool_decide; [|case_bool_decide]; unfold_ctl; simpl.
  - destruct (LuceneHnswDenseSearcher_from_prebuilt_index _ _ _ _); simpl.
    + eexists _, [_], _. split; [reflexivity|]. split_and!; [|repeat constructor|intros; reflexivity].
      intros j Hj. by rewrite lookup_insert_ne.
    + eexists _, [_], _. split; [reflexivity|]. split_and!; [intros; reflexivity|repeat constructor|intros; reflexivity].
  - destruct (LuceneSearcher_from_prebuilt_index _ _); simpl.
    + eexists _, [_], _. split; [reflexivity|]. split_and!; [|repeat constructor|intros; reflexivity].
      intros j Hj. by rewrite lookup_insert_ne.
    + eexists _, [_], _. split; [reflexivity|]. split_and!; [intros; reflexivity|repeat constructor|intros; reflexivity].
  - exists (Raise (ValueError (unsupported_msg (name config)))), [], (indexes w).
    rewrite app_nil_r. split; [by destruct w|]. by split_and!.
Qed.

Lemma or_add_index_effect found fresh w :
  ∃ r evs ix,
    or_add_index ext found fresh w = (r, mkWorld ix (trace w ++ evs)) ∧
    (∀ j, j ≠ name fresh → ix !! j = indexes w !! j) ∧
    Forall (λ ev, is_load ev = true) evs ∧
    (∀ w2, (or_add_index ext found fresh w2).1 = r).
Proof.
  unfold or_add_index. destruct found as [c|]; [|apply add_index_effect].
  simpl. destruct (searcher c); [|apply add_index_effect].
  exists (Ok c), [], (indexes w).
  rewrite app_nil_r. split; [by destruct w|]. by split_and!.
Qed.

(** A shard task, step by step: resolve the handle, then put the query
    with the caller's [k] to its backend. *)
Lemma _search_single_shard_steps shard_name query k ef enc w :
  _search_single_shard ext shard_name query k ef enc w =
  let (rc, w1) := or_add_index ext (indexes w !! shard_name)
                    (IndexConfig_new shard_name None (Some ef) (Some enc) None) w in
  match rc with
  | Raise e => (Raise e, w1)
  | Ok c =>
      (shard_answer c query k,
       match searcher c with
       | None => w1
       | Some _ => mkWorld (indexes w1) (trace w1 ++ [EvSearch shard_name query k])
       end)
  end.
Proof.
  unfold _search_single_shard, bind at 1, indexes_get at 1.
  unfold bind at 1.
  destruct (or_add_index _ _ _ w) as [[c|e] w1]; [|done].
  unfold shard_answer, searcher_search_call.
  destruct (searcher c) as [s|]; [|done].
  unfold_ctl. simpl. by destruct (searcher_search s query k).
Qed.

(** What one shard task does: it writes at most its own registry entry;
    every query it puts to a backend is the caller's query with the
    caller's [k]; when it returns a list it has put that query; and its
    result depends on the controller only through its own entry. *)
Lemma _search_single_shard_effect shard_name query k ef enc w :
  ∃ evs ix,
    (_search_single_shard ext shard_name query k ef enc w).2
      = mkWorld ix (trace w ++ evs) ∧
    (∀ j, j ≠ shard_name → ix !! j = indexes w !! j) ∧
    (∀ n q k', EvSearch n q k' ∈ evs → n = shard_name ∧ q = query ∧ k' = k) ∧
    (is_Ok (shard_outcome ext shard_name query k ef enc w) = true →
     EvSearch shard_name query k ∈ evs) ∧
    (∀ w2, indexes w2 !! shard_name = indexes w !! shard_name →
           shard_outcome ext shard_name query k ef enc w2
           = shard_outcome ext shard_name query k ef enc w).
Proof.
  unfold shard_outcome.
  assert (Hlocal : ∀ r, (∀ w2, (or_add_index ext (indexes w !! shard_name)
               (IndexConfig_new shard_name None (Some ef) (Some enc) None) w2).1 = r) →
    ∀ w2, indexes w2 !! shard_name = indexes w !! shard_name →
          (_search_single_shard ext shard_name query k ef enc w2).1
          = match r with Ok c => shard_answer c query k | Raise e => Raise e end).
  { intros r Hr w2 Hw2. rewrite _search_single_shard_steps, Hw2.
    specialize (Hr w2). destruct (or_add_index _ _ _ w2) as [r2 w2'].
    simpl in Hr. subst r2. by destruct r. }
  destruct (or_add_index_effect (indexes w !! shard_name)
              (IndexConfig_new shard_name None (Some ef) (Some enc) None) w)
    as (r & evs & ix & Hrun & Hframe & Hload & Hind).
  assert (Hnosearch : ∀ n q k', EvSearch n q k' ∉ evs).
  { intros n q k' Hin. rewrite Forall_forall in Hload. by apply Hload in Hin. }
  rewrite (Hlocal r Hind w eq_refl).
  rewrite _search_single_shard_steps, Hrun.
  destruct r as [c|e]; [destruct (searcher c) as [s|] eqn:Hs|]; simpl.
  - exists (evs ++ [EvSearch shard_name query k]), ix.
    rewrite (assoc_L (++)). split_and!; [done|done| | |].
    + intros n q k' [Hin|Hin]%elem_of_app; [by apply Hnosearch in Hin|].
      apply list_elem_of_singleton in Hin. by injection Hin as -> -> ->.
    + intros _. apply elem_of_app. right. by apply list_elem_of_singleton.
    + intros w2 Hw2. by rewrite (Hlocal _ Hind w2 Hw2).
  - exists evs, ix. split_and!; [done|done| | |].
    + intros n q k' Hin. by apply Hnosearch in Hin.
    + unfold shard_answer. by rewrite Hs.
    + intros w2 Hw2. by rewrite (Hlocal _ Hind w2 Hw2).
  - exists evs, ix. split_and!; [done|done| |done|].
    + intros n q k' Hin. by apply Hnosearch in Hin.
    + intros w2 Hw2. by rewrite (Hlocal _ Hind w2 Hw2).
Qed.

(** The tasks of distinct shards do not interfere: each future holds what
    the task of its shard returns on the controller as it was when
    [sharded_search] was called, and all queries carry the caller's [k]. *)
Lemma run_shard_tasks_effect order query k ef enc w :
  NoDup order →
  ∃ evs,
    (run_shard_tasks ext order query k ef enc w).1
      = (λ s, shard_outcome ext s query k ef enc w) <$> order ∧
    trace (run_shard_tasks ext order query k ef enc w).2 = trace w ++ evs ∧
    (∀ j, j ∉ order →
          indexes (run_shard_tasks ext order query k ef enc w).2 !! j = indexes w !! j) ∧
    (∀ n q k', EvSearch n q k' ∈ evs → n ∈ order ∧ q = query ∧ k' = k) ∧
    (∀ s, s ∈ order → is_Ok (shard_outcome ext s query k ef enc w) = true →
          EvSearch s query k ∈ evs).
Proof.
  intros Hnodup. revert w.
  induction Hnodup as [|s rest Hs Hrest IH]; intros w.
  - exists []. simpl. rewrite app_nil_r. split_and!; try done.
    + intros n q k' Hin. by apply elem_of_nil in Hin.
    + intros s Hin. by apply elem_of_nil in Hin.
  - simpl.
    destruct (_search_single_shard_effect s query k ef enc w)
      as (evs1 & ix & Hw1 & Hframe & Hk1 & Hok1 & Hlocal).
    unfold shard_outcome in Hok1.
    destruct (_search_single_shard ext s query k ef enc w) as [r w1] eqn:Htask.
    simpl in Hw1, Hok1. subst w1.
    destruct (IH (mkWorld ix (trace w ++ evs1))) as (evs2 & Hfut & Htrace & Hix & Hk2 & Hok2).
    destruct (run_shard_tasks ext rest query k ef enc _) as [rs w2].
    simpl in *.
    assert (Hsame : ∀ s', s' ∈ rest →
              shard_outcome ext s' query k ef enc (mkWorld ix (trace w ++ evs1))
              = shard_outcome ext s' query k ef enc w).
    { intros s' Hs'.
      destruct (_search_single_shard_effect s' query k ef enc w)
        as (_ & _ & _ & _ & _ & _ & Hloc).
      apply Hloc. simpl. apply Hframe. intros ->. done. }
    exists (evs1 ++ evs2). split_and!.
    + f_equal; [unfold shard_outcome; by rewrite Htask|].
      rewrite Hfut. apply list_fmap_ext. intros i s' Hi.
      apply Hsame. by eapply list_elem_of_lookup_2.
    + by rewrite Htrace, (assoc_L (++)).
    + intros j [Hj1 Hj2]%not_elem_of_cons. rewrite Hix by done. by apply Hframe.
    + intros n q k' [Hin|Hin]%elem_of_app.
      * destruct (Hk1 _ _ _ Hin) as (-> & -> & ->). split_and!; [left|done|done].
      * destruct (Hk2 _ _ _ Hin) as (? & -> & ->). split_and!; [by right|done|done].
    + intros s' [->|Hin]%elem_of_cons Hok; apply elem_of_app.
      * left. apply Hok1. unfold shard_outcome in Hok. by rewrite Htask in Hok.
      * right. apply Hok2; [done|]. by rewrite Hsame.
Qed.

(** ** Collecting the futures *)

Lemma gather_all_Ok (lists : list (list (ShardHit (Score:=Score)))) acc :
  gather (Ok <$> lists) acc = Ok (acc ++ concat lists).
Proof.
  revert acc. induction lists as [|l lists IH]; intros acc; simpl.
  - by rewrite app_nil_r.
  - by rewrite IH, (assoc_L (++)).
Qed.

(** With a failed future among them, the loop ends in the exception of
    the first failed one. *)
Lemma gather_some_Raise (futures : list (result (list (ShardHit (Score:=Score))))) acc :
  Exists (λ r, is_Ok r = false) futures →
  ∃ e, gather futures acc = Raise e ∧ Raise e ∈ futures.
Proof.
  revert acc. induction futures as [|r futures IH]; intros acc Hex.
  - by apply Exists_nil in Hex.
  - destruct r as [l|e]; simpl.
    + apply Exists_cons in Hex as [Hex|Hex]; [done|].
      destruct (IH (acc ++ l) Hex) as (e & Hg & Hin). exists e. split; [done|by right].
    + exists e. split; [done|left].
Qed.

Lemma SHARDS_NoDup : NoDup SHARDS.
Proof. apply (bool_decide_unpack _). by vm_compute. Qed.

Lemma sharded_search_futures order query k ef enc w :
  (sharded_search score_ltb ext order query k ef enc w).1 =
  match gather (run_shard_tasks ext order query k ef enc w).1 [] with
  | Ok all_results => Ok (py_slice_to (sort_by_score_desc score_ltb all_results) k)
  | Raise e => Raise e
  end.
Proof.
  unfold sharded_search. destruct (run_shard_tasks _ _ _ _ _ _ _) as [futures w'].
  simpl. by destruct (gather futures []).
Qed.

(** C9. When the task of some shard raises, [sharded_search] raises as
    well: its result is the exception of a failed shard task and never a
    list, and it is the exception of that very task when no other task
    failed. *)
Theorem sharded_search_shard_failure order query k ef enc w shard_name e :
  order ≡ₚ SHARDS →
  shard_name ∈ SHARDS →
  shard_outcome ext shard_name query k ef enc w = Raise e →
  ∃ failed e',
    (sharded_search score_ltb ext order query k ef enc w).1 = Raise e' ∧
    failed ∈ SHARDS ∧
    shard_outcome ext failed query k ef enc w = Raise e' ∧
    ((∀ other, other ∈ SHARDS → other ≠ shard_name →
               is_Ok (shard_outcome ext other query k ef enc w) = true) →
     e' = e).
Proof.
  intros Hperm Hin Hfail.
  assert (Hnodup : NoDup order) by (rewrite Hperm; apply SHARDS_NoDup).
  destruct (run_shard_tasks_effect order query k ef enc w Hnodup) as (evs & Hfut & _).
  rewrite sharded_search_futures, Hfut.
  destruct (gather_some_Raise
              ((λ s, shard_outcome ext s query k ef enc w) <$> order) []) as (e' & Hg & He').
  { apply Exists_exists. exists (Raise e). split; [|done].
    apply list_elem_of_fmap. exists shard_name. by rewrite Hfail, Hperm. }
  apply list_elem_of_fmap in He' as (failed & Hfailed & Hfin).
  rewrite Hperm in Hfin.
  exists failed, e'. rewrite Hg. split_and!; [done..|].
  intros Honly. destruct (decide (failed = shard_name)) as [->|Hne].
  - rewrite Hfail in Hfailed. by injection Hfailed.
  - specialize (Honly failed Hfin Hne). by rewrite <- Hfailed in Honly.
Qed.

(** A shard task in full: it returns the answer of its shard's backend to
    [search(query, k)]; when there is such a backend the query is in the
    trace and the backend is in the shard's handle afterwards, and
    otherwise no query is put. *)
Lemma _search_single_shard_backend shard_name query k ef enc w :
  shard_name ∈ SHARDS →
  ∃ ix evs,
    _search_single_shard ext shard_name query k ef enc w
    = (shard_reply (resolved_shard_searcher ext shard_name ef enc w) query k,
       mkWorld ix (trace w ++ evs)) ∧
    match resolved_shard_searcher ext shard_name ef enc w with
    | Ok (Some sr) =>
        EvSearch shard_name query k ∈ evs ∧
        ∃ c, ix !! shard_name = Some c ∧ searcher c = Some sr
    | _ => ∀ n q k', EvSearch n q k' ∉ evs
    end.
Proof.
  intros Hshard. unfold resolved_shard_searcher.
  assert (Hcase : (∀ c, indexes w !! shard_name = Some c → searcher c = None) ∨
                  (∃ c sr, indexes w !! shard_name = Some c ∧ searcher c = Some sr)).
  { destruct (indexes w !! shard_name) as [c|]; [|by left].
    destruct (searcher c) as [sr|] eqn:Hs; [right; by exists c, sr|].
    left. by intros ? [= <-]. }
  destruct Hcase as [Hnone|(c & sr & Hc & Hs)].
  - assert (Hres : match indexes w !! shard_name with
                   | None => LuceneHnswDenseSearcher_from_prebuilt_index ext shard_name
                               (Some ef) (Some enc)
                   | Some c =>
                       match searcher c with
                       | None => LuceneHnswDenseSearcher_from_prebuilt_index ext shard_name
                                   (Some ef) (Some enc)
                       | Some s => Ok (Some s)
                       end
                   end = LuceneHnswDenseSearcher_from_prebuilt_index ext shard_name
                           (Some ef) (Some enc)).
    { destruct (indexes w !! shard_name) as [c|] eqn:Hc; [|done].
      by rewrite (Hnone c eq_refl). }
    simpl. rewrite Hres.
    rewrite _search_single_shard_steps, or_add_index_not_loaded by done.
    unfold add_index. simpl. rewrite bool_decide_eq_true_2 by done.
    unfold_ctl. simpl.
    destruct (LuceneHnswDenseSearcher_from_prebuilt_index ext shard_name (Some ef) (Some enc))
      as [[sr|]|tag]; simpl.
    + eexists _, [EvLoadHnsw shard_name (Some ef) (Some enc); EvSearch shard_name query k].
      rewrite <- (assoc_L (++)). split; [reflexivity|]. split; [by right; left|].
      eexists. split; [apply lookup_insert_eq|done].
    + eexists _, [EvLoadHnsw shard_name (Some ef) (Some enc)]. split; [reflexivity|].
      by intros n q k' ?%list_elem_of_singleton.
    + eexists _, [EvLoadHnsw shard_name (Some ef) (Some enc)]. split; [reflexivity|].
      by intros n q k' ?%list_elem_of_singleton.
  - simpl. rewrite Hc, Hs.
    rewrite _search_single_shard_steps, Hc, (or_add_index_loaded _ _ sr), Hs by done.
    exists (indexes w), [EvSearch shard_name query k]. split.
    + unfold shard_answer, shard_reply. by rewrite Hs.
    + split; [by left|]. by exists c.
Qed.

(** The same for all tasks of a sharded search: the tasks of different
    shards do not disturb each other. *)
Lemma run_shard_tasks_backend order query k ef enc w :
  NoDup order →
  (∀ s, s ∈ order → s ∈ SHARDS) →
  ∃ evs,
    trace (run_shard_tasks ext order query k ef enc w).2 = trace w ++ evs ∧
    (run_shard_tasks ext order query k ef enc w).1
    = (λ s, shard_reply (resolved_shard_searcher ext s ef enc w) query k) <$> order ∧
    (∀ n q k', EvSearch n q k' ∈ evs →
               n ∈ order ∧ q = query ∧ k' = k ∧
               ∃ sr, resolved_shard_searcher ext n ef enc w = Ok (Some sr)) ∧
    (∀ s sr, s ∈ order →
             resolved_shard_searcher ext s ef enc w = Ok (Some sr) →
             EvSearch s query k ∈ evs ∧
             ∃ c, indexes (run_shard_tasks ext order query k ef enc w).2 !! s = Some c ∧
                  searcher c = Some sr).
Proof.
  intros Hnodup. revert w.
  induction Hnodup as [|s0 rest Hs0 Hrest IH]; intros w Hshards.
  { exists []. simpl. rewrite app_nil_r. split_and!; [done|done| |].
    - intros n q k' Hev. by apply elem_of_nil in Hev.
    - intros s sr Hs. by apply elem_of_nil in Hs. }
  simpl.
  destruct (_search_single_shard_backend s0 query k ef enc w) as (ix & evs1 & Htask & Hback);
    [apply Hshards; left|].
  destruct (_search_single_shard_effect s0 query k ef enc w)
    as (evs1' & ix' & Hw1 & Hframe & Hk1 & _).
  rewrite Htask in Hw1. simpl in Hw1. injection Hw1 as <- Hevs.
  apply app_inv_head in Hevs as <-.
  rewrite Htask.
  set (w1 := mkWorld ix (trace w ++ evs1)).
  assert (Hsame : ∀ s, s ∈ rest →
            resolved_shard_searcher ext s ef enc w1 = resolved_shard_searcher ext s ef enc w).
  { intros s Hs. unfold resolved_shard_searcher. simpl.
    rewrite Hframe; [done|]. by intros ->. }
  destruct (IH w1) as (evs2 & Ht2 & Hfut2 & Hk2 & Hb2);
    [intros s Hs; apply Hshards; by right|].
  destruct (run_shard_tasks_effect rest query k ef enc w1 Hrest)
    as (evs2' & _ & _ & Hkeep & _).
  destruct (run_shard_tasks ext rest query k ef enc w1) as [rs w2]. simpl in *.
  exists (evs1 ++ evs2). split_and!.
  - by rewrite Ht2, (assoc_L (++)).
  - f_equal. rewrite Hfut2. apply list_fmap_ext. intros i s Hi.
    rewrite Hsame; [done|]. by eapply list_elem_of_lookup_2.
  - intros n q k' [Hev|Hev]%elem_of_app.
    + destruct (Hk1 _ _ _ Hev) as (-> & -> & ->).
      split_and!; [left|done|done|].
      destruct (resolved_shard_searcher ext s0 ef enc w) as [[sr|]|tag];
        [by eauto|by apply Hback in Hev..].
    + destruct (Hk2 _ _ _ Hev) as (Hn & -> & -> & sr & Hsr).
      split_and!; [by right|done|done|]. exists sr. by rewrite <- (Hsame n Hn).
  - intros s sr [->|Hs]%elem_of_cons Hres.
    + rewrite Hres in Hback. destruct Hback as (Hev & c & Hc & Hsr).
      split; [apply elem_of_app; by left|].
      exists c. by rewrite Hkeep.
    + rewrite <- (Hsame s Hs) in Hres. destruct (Hb2 s sr Hs Hres) as (Hev & Hc).
      split; [apply elem_of_app; by right|done].
Qed.

(** C2. In [sharded_search], whatever the order in which the tasks
    complete, the future of each shard holds the answer of that shard's
    backend to [search(query, k)] with the caller's query and exactly the
    caller's [k], projected to (docid, score) in the backend's order: as
    many candidates as the backend gave for [k].  The backend is the one
    of the shard's handle, provisioned first if the shard was not loaded,
    and it is the backend registered for the shard afterwards.  The
    queries put to backends are exactly these: one for each shard that has
    a backend, all with the caller's query and [k]. *)
Theorem sharded_search_queries_k order query k ef enc w :
  order ≡ₚ SHARDS →
  ∃ evs,
    trace (sharded_search score_ltb ext order query k ef enc w).2 = trace w ++ evs ∧
    (run_shard_tasks ext order query k ef enc w).1
    = (λ s, shard_reply (resolved_shard_searcher ext s ef enc w) query k) <$> order ∧
    (∀ s, s ∈ SHARDS →
          shard_outcome ext s query k ef enc w
          = shard_reply (resolved_shard_searcher ext s ef enc w) query k) ∧
    (∀ n q k', EvSearch n q k' ∈ evs →
               n ∈ SHARDS ∧ q = query ∧ k' = k ∧
               ∃ sr, resolved_shard_searcher ext n ef enc w = Ok (Some sr)) ∧
    (∀ s sr, s ∈ SHARDS →
             resolved_shard_searcher ext s ef enc w = Ok (Some sr) →
             EvSearch s query k ∈ evs ∧
             ∃ c, indexes (sharded_search score_ltb ext order query k ef enc w).2 !! s
                  = Some c ∧ searcher c = Some sr).
Proof.
  intros Hperm.
  assert (Hnodup : NoDup order) by (rewrite Hperm; apply SHARDS_NoDup).
  destruct (run_shard_tasks_backend order query k ef enc w Hnodup)
    as (evs & Htrace & Hfut & Hk & Hback).
  { intros s Hs. by rewrite <- Hperm. }
  assert (Hworld : (sharded_search score_ltb ext order query k ef enc w).2
                   = (run_shard_tasks ext order query k ef enc w).2).
  { unfold sharded_search. destruct (run_shard_tasks _ _ _ _ _ _ _) as [futures w'].
    by destruct (gather futures []). }
  exists evs. rewrite Hworld. split_and!; [done|done| | |].
  - intros s Hs. unfold shard_outcome.
    destruct (_search_single_shard_backend s query k ef enc w Hs) as (ix & evs1 & -> & _).
    done.
  - intros n q k' Hev. destruct (Hk _ _ _ Hev) as (Hn & -> & -> & Hsr).
    split_and!; [by rewrite <- Hperm|done..].
  - intros s sr Hs. apply Hback. by rewrite Hperm.
Qed.

(** C1. For a positive [k], comparable scores, and shard tasks that all
    return their lists, [sharded_search] returns a list [res] with:
    [res] together with some remainder [rest] is the pool of all shards'
    results (as a multiset); [res] is in descending order of score; no
    entry of [rest] scores above an entry of [res]; and [res] has [k]
    entries, or all of the pool when the pool has fewer. *)
Theorem sharded_search_top_k order query k ef enc w :
  StrictWeakOrder score_ltb →
  (0 < k)%Z →
  order ≡ₚ SHARDS →
  (∀ s, s ∈ SHARDS → is_Ok (shard_outcome ext s query k ef enc w) = true) →
  ∃ res rest,
    (sharded_search score_ltb ext order query k ef enc w).1 = Ok res ∧
    res ++ rest ≡ₚ candidate_pool ext query k ef enc w ∧
    StronglySorted (not_below score_ltb) res ∧
    (∀ x y, x ∈ res → y ∈ rest → not_below score_ltb x y) ∧
    length res = (Z.to_nat k `min` length (candidate_pool ext query k ef enc w))%nat ∧
    (Z.of_nat (length res) ≤ k)%Z.
Proof.
  intros Hswo Hk Hperm Hall.
  assert (Hnodup : NoDup order) by (rewrite Hperm; apply SHARDS_NoDup).
  destruct (run_shard_tasks_effect order query k ef enc w Hnodup) as (evs & Hfut & _).
  set (pool := concat ((λ s, shard_results ext s query k ef enc w) <$> order)).
  assert (Hpool : pool ≡ₚ candidate_pool ext query k ef enc w).
  { unfold pool, candidate_pool. by rewrite Hperm. }
  assert (Hgather : gather (run_shard_tasks ext order query k ef enc w).1 [] = Ok pool).
  { rewrite Hfut.
    replace ((λ s, shard_outcome ext s query k ef enc w) <$> order)
      with (Ok (E:=exn) <$> ((λ s, shard_results ext s query k ef enc w) <$> order)).
    - by rewrite gather_all_Ok.
    - rewrite <- list_fmap_compose. apply list_fmap_ext. intros i s Hi. simpl.
      assert (Hs : s ∈ SHARDS) by (rewrite <- Hperm; by eapply list_elem_of_lookup_2).
      specialize (Hall s Hs). unfold shard_results.
      by destruct (shard_outcome ext s query k ef enc w). }
  destruct (top_of_sorted Hswo (Z.to_nat k) pool) as (Hsplit & Hsorted & Hdom & Hlen).
  exists (take (Z.to_nat k) (sort_by_score_desc score_ltb pool)),
         (drop (Z.to_nat k) (sort_by_score_desc score_ltb pool)).
  split_and!; try done.
  - rewrite sharded_search_futures, Hgather. unfold py_slice_to.
    by rewrite (proj2 (Z.leb_le 0 k)) by lia.
  - by rewrite Hsplit.
  - rewrite Hlen. f_equal. by apply Permutation_length.
  - rewrite Hlen. lia.
Qed.
(** ** Supporting facts *)

(** The guard [if not index_config: raise ValueError(... not available)]
    of the two settings methods is never taken: neither method ever fails
    with that error. *)
Lemma not_available_never_raised index_name ef enc qg w :
  (update_settings ext index_name ef enc qg w).1
    ≠ Raise (ValueError (not_available_msg index_name)) ∧
  (get_settings index_name w).1 ≠ Raise (ValueError (not_available_msg index_name)).
Proof.
  split.
  - unfold update_settings, bind at 1, indexes_getitem.
    destruct (indexes w !! index_name) as [c|]; [|done]. simpl.
    destruct ef as [text|]; unfold_ctl; simpl.
    + unfold int_call. destruct (py_int ext text); simpl.
      * by destruct enc, qg.
      * done.
    + by destruct enc, qg.
  - unfold get_settings, bind, indexes_getitem.
    by destruct (indexes w !! index_name).
Qed.

(** A [search] that returns leaves a loaded handle under the name it was
    asked for, so the next [search] for that name loads nothing. *)
Lemma search_Ok_loaded query index_name k qid ef enc qg w r w' :
  search ext query index_name k qid ef enc qg w = (Ok r, w') →
  ∃ c s, indexes w' !! index_name = Some c ∧ searcher c = Some s.
Proof.
  unfold search, bind at 1, indexes_get at 1. unfold bind at 1.
  destruct (or_add_index ext (indexes w !! index_name)
              (IndexConfig_new index_name (Some index_name) ef enc qg) w)
    as [[c|e] w1] eqn:Hens; [|done].
  assert (Hreg : indexes w1 !! index_name = Some c).
  { unfold or_add_index in Hens.
    destruct (indexes w !! index_name) as [c0|] eqn:Hc0; simpl in Hens;
      [destruct (searcher c0) eqn:Hs0|].
    - by injection Hens as <- <-.
    - apply add_index_Ok in Hens as (_ & _ & _ & _ & _ & ->). apply lookup_insert_eq.
    - apply add_index_Ok in Hens as (_ & _ & _ & _ & _ & ->). apply lookup_insert_eq. }
  unfold bind at 1, searcher_search_call.
  destruct (searcher c) as [s|] eqn:Hs; [|done].
  unfold bind at 2, emit at 1, call.
  destruct (searcher_search s query k) as [hits|tag]; [|done].
  unfold bind, ret.
  match goal with |- context [collect_candidates ext hits ?w2] =>
    pose proof (collect_candidates_pure hits w2) as Hcoll;
    destruct (collect_candidates ext hits w2) as [[?|?] ?]
  end; simpl in *; [|done].
  intros [= _ <-]. subst. by exists c, s.
Qed.

Lemma search_twice_loads_once query index_name k qid ef enc qg w r w' :
  search ext query index_name k qid ef enc qg w = (Ok r, w') →
  let w'' := (search ext query index_name k qid ef enc qg w').2 in
  indexes w'' = indexes w' ∧
  filter is_load (trace w'') = filter is_load (trace w').
Proof.
  intros (c & s & Hc & Hs)%search_Ok_loaded. simpl.
  rewrite (search_loaded _ _ _ _ _ _ _ _ c s) by done. simpl. split; [done|].
  rewrite filter_app. simpl. by rewrite app_nil_r.
Qed.
End Properties.

(** * Part IV: the properties at work on the installation of Part II *)

(** Integer scores are comparable. *)
Lemma Z_ltb_StrictWeakOrder : StrictWeakOrder Z.ltb.
Proof.
  split.
  - intros a. apply Z.ltb_irrefl.
  - intros a b c Hab Hbc. apply Z.ltb_lt. apply Z.ltb_lt in Hab, Hbc. lia.
  - intros a b c Hab Hbc. apply Z.ltb_ge. apply Z.ltb_ge in Hab, Hbc. lia.
Defined.

(** The example of the specification: three shards answer with the scores
    9 7 5, 8 6 4 and 3 2 1; for [k = 3] the merge yields 9 8 7 with their
    document ids. *)
Example merge_three_shards :
  let A := [mkShardHit "a1" 9; mkShardHit "a2" 7; mkShardHit "a3" 5] in
  let B := [mkShardHit "b1" 8; mkShardHit "b2" 6; mkShardHit "b3" 4] in
  let C := [mkShardHit "c1" 3; mkShardHit "c2" 2; mkShardHit "c3" 1] in
  match gather [Ok C; Ok A; Ok B] [] with
  | Ok all_results => py_slice_to (sort_by_score_desc Z.ltb all_results) 3
  | Raise _ => []
  end = [mkShardHit "a1" 9; mkShardHit "b1" 8; mkShardHit "a2" 7].
Proof. reflexivity. Qed.

(** Equal scores keep the order in which the futures completed. *)
Example merge_ties_follow_completion :
  sort_by_score_desc Z.ltb [mkShardHit "x" 5; mkShardHit "y" 5; mkShardHit "z" 9]
  = [mkShardHit "z" 9; mkShardHit "x" 5; mkShardHit "y" 5] ∧
  sort_by_score_desc Z.ltb [mkShardHit "y" 5; mkShardHit "z" 9; mkShardHit "x" 5]
  = [mkShardHit "z" 9; mkShardHit "y" 5; mkShardHit "x" 5].
Proof. split; reflexivity. Qed.

(** The sharded search of the installation, with the futures completing
    in reverse order of submission. *)
Example sharded_search_demo :
  (sharded_search Z.ltb Demo.ext (reverse SHARDS) "q" 3 100 "arctic" Demo.new_controller).1
  = Ok [mkShardHit "doc0a" 100; mkShardHit "doc1a" 99; mkShardHit "doc2a" 98].
Proof. vm_compute. reflexivity. Qed.

(** Every shard of the installation answers. *)
Lemma demo_shards_all_answer :
  ∀ s, s ∈ SHARDS →
       is_Ok (shard_outcome Demo.ext s "q" 3 100 "arctic" Demo.new_controller) = true.
Proof.
  apply Forall_forall.
  let shards := eval vm_compute in SHARDS in change SHARDS with shards.
  repeat (constructor; [vm_compute; reflexivity|]). constructor.
Defined.

(** C1 on the installation: all ten shards answer, the futures complete in
    reverse order, [k = 3]. *)
Lemma sharded_search_top_k_witness :
  StrictWeakOrder Z.ltb ∧ (0 < 3)%Z ∧ reverse SHARDS ≡ₚ SHARDS ∧
  (∀ s, s ∈ SHARDS →
        is_Ok (shard_outcome Demo.ext s "q" 3 100 "arctic" Demo.new_controller) = true) ∧
  ∃ res rest,
    (sharded_search Z.ltb Demo.ext (reverse SHARDS) "q" 3 100 "arctic"
       Demo.new_controller).1 = Ok res ∧
    res ++ rest ≡ₚ candidate_pool Demo.ext "q" 3 100 "arctic" Demo.new_controller ∧
    StronglySorted (not_below Z.ltb) res ∧
    (∀ x y, x ∈ res → y ∈ rest → not_below Z.ltb x y) ∧
    length res
    = (Z.to_nat 3 `min` length (candidate_pool Demo.ext "q" 3 100 "arctic"
                                  Demo.new_controller))%nat ∧
    (Z.of_nat (length res) ≤ 3)%Z.
Proof.
  split_and!; [exact Z_ltb_StrictWeakOrder|lia|apply reverse_Permutation
              |exact demo_shards_all_answer|].
  apply (sharded_search_top_k Z.ltb Demo.ext (reverse SHARDS) "q" 3 100 "arctic"
           Demo.new_controller);
    [exact Z_ltb_StrictWeakOrder|lia|apply reverse_Permutation
    |exact demo_shards_all_answer].
Defined.

(** C2 on the installation: no shard is loaded, each is provisioned and
    queried. *)
Lemma sharded_search_queries_k_witness :
  reverse SHARDS ≡ₚ SHARDS ∧
  ∃ evs,
    trace (sharded_search Z.ltb Demo.ext (reverse SHARDS) "q" 3 100 "arctic"
             Demo.new_controller).2 = trace Demo.new_controller ++ evs ∧
    (run_shard_tasks Demo.ext (reverse SHARDS) "q" 3 100 "arctic" Demo.new_controller).1
    = (λ s, shard_reply (resolved_shard_searcher Demo.ext s 100 "arctic" Demo.new_controller)
              "q" 3) <$> reverse SHARDS ∧
    (∀ s, s ∈ SHARDS →
          shard_outcome Demo.ext s "q" 3 100 "arctic" Demo.new_controller
          = shard_reply (resolved_shard_searcher Demo.ext s 100 "arctic" Demo.new_controller)
              "q" 3) ∧
    (∀ n q k', EvSearch n q k' ∈ evs →
               n ∈ SHARDS ∧ q = "q" ∧ k' = 3 ∧
               ∃ sr, resolved_shard_searcher Demo.ext n 100 "arctic" Demo.new_controller
                     = Ok (Some sr)) ∧
    (∀ s sr, s ∈ SHARDS →
             resolved_shard_searcher Demo.ext s 100 "arctic" Demo.new_controller
             = Ok (Some sr) →
             EvSearch s "q" 3 ∈ evs ∧
             ∃ c, indexes (sharded_search Z.ltb Demo.ext (reverse SHARDS) "q" 3 100 "arctic"
                             Demo.new_controller).2 !! s = Some c ∧
                  searcher c = Some sr).
Proof.
  split; [apply reverse_Permutation|].
  apply (sharded_search_queries_k Z.ltb Demo.ext (reverse SHARDS) "q" 3 100 "arctic"
           Demo.new_controller).
  apply reverse_Permutation.
Defined.

(** Shard 2 holds three documents: asked with [k = 2] its task returns
    the two best, asked with [k = 3] all three. *)
Example shard_task_asks_for_k :
  shard_outcome Demo.ext (Demo.shard 2) "q" 2 100 "arctic" Demo.new_controller
  = Ok [mkShardHit "doc2a" 98; mkShardHit "doc2b" 48] ∧
  shard_outcome Demo.ext (Demo.shard 2) "q" 3 100 "arctic" Demo.new_controller
  = Ok [mkShardHit "doc2a" 98; mkShardHit "doc2b" 48; mkShardHit "doc2c" 2].
Proof. split; vm_compute; reflexivity. Qed.

(** C9 on the installation: shard 3 has a backend that cannot be read. *)
Lemma sharded_search_shard_failure_witness :
  reverse SHARDS ≡ₚ SHARDS ∧
  Demo.shard 3 ∈ SHARDS ∧
  shard_outcome Demo.ext (Demo.shard 3) "q" 3 100 "arctic" Demo.controller_broken_shard
  = Raise (BackendError "index unreadable") ∧
  ∃ failed e',
    (sharded_search Z.ltb Demo.ext (reverse SHARDS) "q" 3 100 "arctic"
       Demo.controller_broken_shard).1 = Raise e' ∧
    failed ∈ SHARDS ∧
    shard_outcome Demo.ext failed "q" 3 100 "arctic" Demo.controller_broken_shard
    = Raise e' ∧
    ((∀ other, other ∈ SHARDS → other ≠ Demo.shard 3 →
               is_Ok (shard_outcome Demo.ext other "q" 3 100 "arctic"
                        Demo.controller_broken_shard) = true) →
     e' = BackendError "index unreadable").
Proof.
  assert (Hin : Demo.shard 3 ∈ SHARDS) by (apply (bool_decide_unpack _); vm_compute; exact I).
  assert (Hfail : shard_outcome Demo.ext (Demo.shard 3) "q" 3 100 "arctic"
                    Demo.controller_broken_shard = Raise (BackendError "index unreadable"))
    by (vm_compute; reflexivity).
  split_and!; [apply reverse_Permutation|exact Hin|exact Hfail|].
  exact (sharded_search_shard_failure Z.ltb Demo.ext (reverse SHARDS) "q" 3 100 "arctic"
           Demo.controller_broken_shard (Demo.shard 3) (BackendError "index unreadable")
           (reverse_Permutation SHARDS) Hin Hfail).
Defined.

(** The whole call fails with the error of the broken shard. *)
Example sharded_search_broken_shard :
  (sharded_search Z.ltb Demo.ext (reverse SHARDS) "q" 3 100 "arctic"
     Demo.controller_broken_shard).1 = Raise (BackendError "index unreadable").
Proof. vm_compute. reflexivity. Qed.

(** C3 on the installation: the default index is loaded when the module
    is imported. *)
Lemma search_loaded_no_reload_witness :
  indexes Demo.controller !! DEFAULT_INDEX = Some Demo.default_handle ∧
  searcher Demo.default_handle = Some Demo.passage_searcher ∧
  let w' := (search Demo.ext "hello" DEFAULT_INDEX 10 "q1" None None None
               Demo.controller).2 in
  indexes w' = indexes Demo.controller ∧
  trace w' = trace Demo.controller ++ [EvSearch DEFAULT_INDEX "hello" 10] ∧
  filter is_load (trace w') = filter is_load (trace Demo.controller).
Proof.
  assert (Hc : indexes Demo.controller !! DEFAULT_INDEX = Some Demo.default_handle)
    by (vm_compute; reflexivity).
  split_and!; [exact Hc|reflexivity|].
  exact (search_loaded_no_reload Demo.ext "hello" DEFAULT_INDEX 10 "q1" None None None
           Demo.controller Demo.default_handle Demo.passage_searcher Hc eq_refl).
Defined.

(** The first search of a fresh controller loads the index, the second
    one does not. *)
Example search_twice_demo :
  let w1 := (search Demo.ext "hello" DEFAULT_INDEX 10 "q1" None None None
               Demo.new_controller).2 in
  let w2 := (search Demo.ext "hello" DEFAULT_INDEX 10 "q2" None None None w1).2 in
  trace w1 = [EvLoadLucene DEFAULT_INDEX; EvSearch DEFAULT_INDEX "hello" 10] ∧
  trace w2 = [EvLoadLucene DEFAULT_INDEX; EvSearch DEFAULT_INDEX "hello" 10;
              EvSearch DEFAULT_INDEX "hello" 10].
Proof. split; vm_compute; reflexivity. Qed.

(** C4 on the installation. *)
Lemma add_index_unsupported_witness :
  let config := IndexConfig_new (Score:=Z) "not-a-real-index" None None None None in
  (name config ∉ SHARDS) ∧
  TF_INDEX_INFO Demo.ext !! name config = None ∧
  add_index Demo.ext config Demo.controller
  = (Raise (ValueError (unsupported_msg (name config))), Demo.controller) ∧
  ∀ query k qid ef enc qg,
    (∀ c, indexes Demo.controller !! name config = Some c → searcher c = None) →
    search Demo.ext query (name config) k qid ef enc qg Demo.controller
    = (Raise (ValueError (unsupported_msg (name config))), Demo.controller).
Proof.
  intros config.
  assert (Hshard : name config ∉ SHARDS)
    by (apply (bool_decide_unpack _); vm_compute; exact I).
  assert (Htf : TF_INDEX_INFO Demo.ext !! name config = None) by (vm_compute; reflexivity).
  split_and!; [exact Hshard|exact Htf|..];
    apply (add_index_unsupported Demo.ext config Demo.controller Hshard Htf).
Defined.

(** The error message a caller sees for an unsupported name. *)
Example demo_add_index_unknown_name :
  (add_index Demo.ext (IndexConfig_new "not-a-real-index" None None None None)
     Demo.controller).1
  = Raise (ValueError "Index 'not-a-real-index' not currently supported in prebuilt indexes.").
Proof. vm_compute. reflexivity. Qed.

(** The default index has no settings until some are applied. *)
Example get_settings_fresh_demo :
  (get_settings DEFAULT_INDEX Demo.controller).1 = Ok ∅.
Proof. vm_compute. reflexivity. Qed.

(** C6 on the installation: search width and query generator are set, the
    encoder is not. *)
Lemma get_settings_only_set_fields_witness :
  indexes Demo.controller_with_settings !! DEFAULT_INDEX
  = Some Demo.default_handle_with_settings ∧
  ∃ m, get_settings DEFAULT_INDEX Demo.controller_with_settings
       = (Ok m, Demo.controller_with_settings) ∧
       m !! "efSearch" = Some (PyInt 100) ∧
       m !! "encoder" = None ∧
       m !! "queryGenerator" = Some (PyStr "rm3") ∧
       (∀ key, key ∉ ["efSearch"; "encoder"; "queryGenerator"] → m !! key = None) ∧
       (∀ key, m !! key ≠ Some PyNone) ∧
       (∀ p w0, add_index Demo.ext (IndexConfig_new DEFAULT_INDEX p None None None) w0
                = (Ok Demo.default_handle_with_settings, Demo.controller_with_settings) →
                m = ∅).
Proof.
  assert (Hc : indexes Demo.controller_with_settings !! DEFAULT_INDEX
               = Some Demo.default_handle_with_settings) by (vm_compute; reflexivity).
  split; [exact Hc|].
  exact (get_settings_only_set_fields Demo.ext DEFAULT_INDEX Demo.controller_with_settings
           Demo.default_handle_with_settings Hc).
Defined.

(** C5 on the installation: only the encoder is provided; search width and
    query generator stay as they were. *)
Lemma update_settings_partial_witness :
  indexes Demo.controller_with_settings !! DEFAULT_INDEX
  = Some Demo.default_handle_with_settings ∧
  converted Demo.ext None = Some None ∧
  let c' := mkIndexConfig DEFAULT_INDEX None (Some 100) (Some "X") (Some "rm3")
              (Some Demo.passage_searcher) in
  let w' := mkWorld (<[DEFAULT_INDEX := c']> (indexes Demo.controller_with_settings))
              (trace Demo.controller_with_settings) in
  update_settings Demo.ext DEFAULT_INDEX None (Some "X") None Demo.controller_with_settings
  = (Ok (), w') ∧
  ∃ m, get_settings DEFAULT_INDEX w' = (Ok m, w') ∧
       m !! "efSearch" = Some (PyInt 100) ∧
       m !! "encoder" = Some (PyStr "X") ∧
       m !! "queryGenerator" = Some (PyStr "rm3") ∧
       ∀ key, key ∉ ["efSearch"; "encoder"; "queryGenerator"] → m !! key = None.
Proof.
  assert (Hc : indexes Demo.controller_with_settings !! DEFAULT_INDEX
               = Some Demo.default_handle_with_settings) by (vm_compute; reflexivity).
  split_and!; [exact Hc|reflexivity|].
  exact (update_settings_partial Demo.ext DEFAULT_INDEX None (Some "X") None
           Demo.controller_with_settings Demo.default_handle_with_settings None
           Hc eq_refl).
Defined.

(** A search width given as the text "64" is stored as the integer 64,
    here together with a new encoder; the query generator stays. *)
Example update_settings_width_demo :
  (get_settings DEFAULT_INDEX
     (update_settings Demo.ext DEFAULT_INDEX (Some "64") (Some "X") None
        Demo.controller_with_settings).2).1
  = Ok (<["queryGenerator" := PyStr "rm3"]>
          (<["encoder" := PyStr "X"]> (<["efSearch" := PyInt 64]> ∅))).
Proof. vm_compute. reflexivity. Qed.

(** A search width that is no integer: the call stops in [int("abc")]
    before any field is written, so the handle is as before. *)
Example update_settings_bad_width_demo :
  let run := update_settings Demo.ext DEFAULT_INDEX (Some "abc") (Some "X") None
               Demo.controller_with_settings in
  run.1 = Raise (ValueError "invalid literal for int() with base 10: 'abc'") ∧
  indexes run.2 !! DEFAULT_INDEX = Some Demo.default_handle_with_settings.
Proof. split; vm_compute; reflexivity. Qed.

(** C7 on the code. A settings call for a name without a handle fails in
    the subscript [self.indexes[index_name]] with [KeyError], not with the
    [ValueError] "Index ... not available" of the guard behind it; the
    controller is unchanged. *)
Theorem settings_unknown_index_KeyError :
  update_settings Demo.ext "not-a-real-index" None (Some "X") None Demo.controller
  = (Raise (KeyError "not-a-real-index"), Demo.controller) ∧
  get_settings "not-a-real-index" Demo.controller
  = (Raise (KeyError "not-a-real-index"), Demo.controller) ∧
  Raise (E:=exn) (A:=unit) (KeyError "not-a-real-index")
  ≠ Raise (ValueError (not_available_msg "not-a-real-index")).
Proof.
  assert (Hnone : indexes Demo.controller !! "not-a-real-index" = None)
    by (vm_compute; reflexivity).
  destruct (settings_unknown_index Demo.ext "not-a-real-index" None (Some "X") None
              Demo.controller Hnone) as [Hupd Hget].
  split_and!; [exact Hupd|exact Hget|discriminate].
Qed.

(** C8 on the installation: the document stored with the payload
    [{"contents": "hello world"}] comes back with the text [hello world];
    an id the backend does not know is reported as not found. *)
Lemma get_document_found_or_not_witness :
  (get_document Demo.ext "7187158" DEFAULT_INDEX Demo.controller).1
  = Ok (mkDocumentResponse "7187158" (JStr "hello world")) ∧
  (get_document Demo.ext "no-such-doc" DEFAULT_INDEX Demo.controller).1
  = Raise (ValueError "Document 'no-such-doc' not found in index 'msmarco-v1-passage'").
Proof.
  split.
  - apply (proj2 (get_document_found_or_not Demo.ext "7187158" DEFAULT_INDEX Demo.controller)
             Demo.default_handle Demo.passage_searcher
             (mkDocument (Some (Demo.payload "hello world")))
             (Demo.payload "hello world")
             [("contents", JStr "hello world")] (JStr "hello world"));
      vm_compute; reflexivity.
  - apply (proj1 (get_document_found_or_not Demo.ext "no-such-doc" DEFAULT_INDEX
                    Demo.controller)).
    exists Demo.default_handle, Demo.passage_searcher.
    split_and!; vm_compute; reflexivity.
Defined.

(** C10 on the installation, for a shard name: the HNSW catalog knows it,
    the lexical catalog does not. *)
Lemma get_status_report_witness :
  ∃ status,
    get_status Demo.ext (Demo.shard 0) Demo.controller = (Ok status, Demo.controller) ∧
    status !! "downloaded" = Some (PyBool false) ∧
    status !! "size compressed (bytes)" = Some (PyStr "Not available").
Proof.
  destruct (get_status_report Demo.ext (Demo.shard 0) Demo.controller)
    as (status & Hrun & _ & Hdown & _ & Hsize).
  exists status. split_and!; [exact Hrun|exact Hdown|].
  apply Hsize; [|vm_compute; reflexivity].
  vm_compute. eexists. reflexivity.
Defined.

(** The status of the default index, which the lexical catalog knows. *)
Example get_status_default_demo :
  (get_status Demo.ext DEFAULT_INDEX Demo.controller).1
  = Ok (<["size compressed (bytes)" := PyInt 2170758938]>
          (<["downloaded" := PyBool true]> ∅)).
Proof. vm_compute. reflexivity. Qed.

(** * Part V: further properties of the controller *)

Section Further.
Context {Score : Type} (score_ltb : Score → Score → bool).
Context (ext : Externals Score).

Implicit Types (w : World Score) (c config : IndexConfig Score).

(** ** Provisioning *)

(** X1. When [add_index] returns, the registry maps the configured name to
    the returned handle, replacing whatever was there, and no other entry
    has changed; the handle carries the configuration's name, path and
    settings.  Exactly one backend was constructed: for a name of [SHARDS]
    the HNSW one, from the configuration's [ef_search] and [encoder], also
    when the lexical catalog lists the name as well; for any other name
    the lexical one, and then the lexical catalog lists the name. *)
Theorem add_index_registers config w c w' :
  add_index ext config w = (Ok c, w') →
  indexes w' = <[name config := c]> (indexes w) ∧
  c = set_searcher config (searcher c) ∧
  (name config ∈ SHARDS →
     LuceneHnswDenseSearcher_from_prebuilt_index ext
       (name config) (ef_search config) (encoder config) = Ok (searcher c) ∧
     trace w' = trace w ++ [EvLoadHnsw (name config) (ef_search config) (encoder config)]) ∧
  (name config ∉ SHARDS →
     is_Some (TF_INDEX_INFO ext !! name config) ∧
     LuceneSearcher_from_prebuilt_index ext (name config) = Ok (searcher c) ∧
     trace w' = trace w ++ [EvLoadLucene (name config)]).
Proof.
  unfold add_index.
  case_bool_decide as Hshard; [|case_bool_decide as Htf]; unfold_ctl; simpl.
  - destruct (LuceneHnswDenseSearcher_from_prebuilt_index _ _ _ _) as [s|tag]; simpl; [|done].
    intros [= <- <-]. simpl. split_and!; try done; by destruct config.
  - destruct (LuceneSearcher_from_prebuilt_index _ _) as [s|tag]; simpl; [|done].
    intros [= <- <-]. simpl. split_and!; try done; by destruct config.
  - done.
Qed.

(** X2. When the constructor of the backend raises, [add_index] raises
    that error and registers nothing: the registry is as before. *)
Theorem add_index_load_failure config w tag :
  (name config ∈ SHARDS ∧
   LuceneHnswDenseSearcher_from_prebuilt_index ext
     (name config) (ef_search config) (encoder config) = Raise tag) ∨
  ((name config ∉ SHARDS) ∧ is_Some (TF_INDEX_INFO ext !! name config) ∧
   LuceneSearcher_from_prebuilt_index ext (name config) = Raise tag) →
  (add_index ext config w).1 = Raise (BackendError tag) ∧
  indexes (add_index ext config w).2 = indexes w.
Proof.
  intros [[Hshard Hctor]|(Hshard & Htf & Hctor)]; unfold add_index.
  - rewrite bool_decide_eq_true_2 by done. unfold_ctl. simpl. by rewrite Hctor.
  - rewrite bool_decide_eq_false_2 by done. rewrite bool_decide_eq_true_2 by done.
    unfold_ctl. simpl. by rewrite Hctor.
Qed.

(** X3. [initialize_default_index] fails with the "Default index ... not
    found" [ValueError] exactly when the lexical catalog does not list the
    name, and then the controller is unchanged; membership in [SHARDS] or
    in the HNSW catalog does not help.  For a listed name the controller is
    left as [add_index] leaves it for a configuration that sets only the
    name. *)
Theorem initialize_default_index_cases default_index w :
  ((initialize_default_index ext default_index w).1
     = Raise (ValueError (no_default_msg default_index)) ↔
   TF_INDEX_INFO ext !! default_index = None) ∧
  (TF_INDEX_INFO ext !! default_index = None →
   (initialize_default_index ext default_index w).2 = w) ∧
  (is_Some (TF_INDEX_INFO ext !! default_index) →
   (initialize_default_index ext default_index w).2
   = (add_index ext (IndexConfig_new default_index None None None None) w).2).
Proof.
  unfold initialize_default_index. case_bool_decide as Htf.
  - assert (Hno : (add_index ext (IndexConfig_new default_index None None None None) w).1
                  ≠ Raise (ValueError (no_default_msg default_index))).
    { unfold add_index. simpl.
      case_bool_decide; [|rewrite bool_decide_eq_true_2 by done]; unfold_ctl; simpl.
      - by destruct (LuceneHnswDenseSearcher_from_prebuilt_index _ _ _ _).
      - by destruct (LuceneSearcher_from_prebuilt_index _ _). }
    unfold bind, ret.
    destruct (add_index _ _ w) as [[c|e] w1]; simpl in *.
    + split_and!; [|by intros Hnone; rewrite Hnone in Htf; destruct Htf|done].
      split; [done|]. intros Hnone. rewrite Hnone in Htf. by destruct Htf.
    + split_and!; [|by intros Hnone; rewrite Hnone in Htf; destruct Htf|done].
      split; [by intros [= ->] |]. intros Hnone. rewrite Hnone in Htf. by destruct Htf.
  - assert (Hnone : TF_INDEX_INFO ext !! default_index = None).
    { destruct (TF_INDEX_INFO ext !! default_index) eqn:Hl; [|done].
      destruct Htf. by eexists. }
    split_and!; [done|done|]. intros Hsome. rewrite Hnone in Hsome. by destruct Hsome.
Qed.

(** X4. [get_indexes] returns, without touching the controller, one
    mapping over the names of both catalogs; a name that both catalogs
    list gets its HNSW entry. *)
Theorem get_indexes_merged w :
  ∃ listing,
    get_indexes ext w = (Ok listing, w) ∧
    dom listing = dom (TF_INDEX_INFO ext) ∪ dom (LUCENE_HNSW_INDEX_INFO ext) ∧
    ∀ n, listing !! n = match LUCENE_HNSW_INDEX_INFO ext !! n with
                        | Some info => Some info
                        | None => TF_INDEX_INFO ext !! n
                        end.
Proof.
  eexists. split; [reflexivity|]. split.
  - rewrite dom_union_L. apply (comm_L (∪)).
  - intros n. rewrite lookup_union.
    by destruct (LUCENE_HNSW_INDEX_INFO ext !! n), (TF_INDEX_INFO ext !! n).
Qed.
(** ** Search *)

Lemma collect_candidates_eq hits w :
  collect_candidates ext hits w = (candidates_of ext hits, w).
Proof.
  revert w. induction hits as [|hit rest IH]; intros w; [done|].
  simpl. unfold hit_contents, json_loads_call, bind at 1.
  destruct (hit_raw hit) as [text|]; [|done].
  destruct (json_loads ext text) as [v|]; [|done].
  unfold_ctl. destruct (json_getitem v "contents") as [contents|e]; [|done].
  rewrite IH. by destruct (candidates_of ext rest).
Qed.

(** [search], step by step: resolve the handle, query its backend, build
    the candidates. *)
Lemma search_steps query index_name k qid ef enc qg w :
  search ext query index_name k qid ef enc qg w =
  let (rc, w1) := or_add_index ext (indexes w !! index_name)
                    (IndexConfig_new index_name (Some index_name) ef enc qg) w in
  match rc with
  | Raise e => (Raise e, w1)
  | Ok c =>
      match searcher c with
      | None => (Raise (AttributeError "'NoneType' object has no attribute 'search'"), w1)
      | Some s =>
          (match searcher_search s query k with
           | Raise tag => Raise (BackendError tag)
           | Ok hits =>
               match candidates_of ext hits with
               | Raise e => Raise e
               | Ok candidates => Ok (mkQueryResponse qid query candidates)
               end
           end,
           mkWorld (indexes w1) (trace w1 ++ [EvSearch index_name query k]))
      end
  end.
Proof.
  unfold search, bind at 1, indexes_get at 1. unfold bind at 1.
  destruct (or_add_index _ _ _ w) as [[c|e] w1]; [|done].
  unfold bind at 1, searcher_search_call.
  destruct (searcher c) as [s|]; [|done].
  unfold bind at 2, emit at 1, call.
  destruct (searcher_search s query k) as [hits|tag]; [|done].
  unfold bind, ret. rewrite collect_candidates_eq.
  by destruct (candidates_of ext hits).
Qed.

Lemma or_add_index_Ok_registered index_name fresh w c w1 :
  name fresh = index_name →
  or_add_index ext (indexes w !! index_name) fresh w = (Ok c, w1) →
  indexes w1 !! index_name = Some c.
Proof.
  intros Hname. unfold or_add_index.
  destruct (indexes w !! index_name) as [c0|] eqn:Hc0; simpl;
    [destruct (searcher c0) eqn:Hs0|].
  - by intros [= <- <-].
  - intros (_ & _ & _ & _ & _ & ->)%add_index_Ok. rewrite Hname. apply lookup_insert_eq.
  - intros (_ & _ & _ & _ & _ & ->)%add_index_Ok. rewrite Hname. apply lookup_insert_eq.
Qed.

Lemma candidates_of_Ok hits candidates :
  candidates_of ext hits = Ok candidates →
  Forall2 (λ hit cand,
             cand_docid cand = hit_docid hit ∧
             cand_score cand = hit_score hit ∧
             hit_contents ext hit = Ok (cand_contents cand)) hits candidates.
Proof.
  revert candidates. induction hits as [|hit rest IH]; intros candidates; simpl.
  - intros [= <-]. constructor.
  - destruct (hit_contents ext hit) as [contents|e] eqn:Hhit; [|done].
    destruct (candidates_of ext rest) as [more|e]; [|done].
    intros [= <-]. constructor; [done|]. by apply IH.
Qed.

(** X5. When [search] returns, its response echoes the query id and the
    query text, and its candidates are the hits of the registered handle's
    backend for [(query, k)], one candidate per hit and in the backend's
    order, each with the hit's document id and score and the contents field
    of the hit's payload. *)
Theorem search_candidates_follow_hits query index_name k qid ef enc qg w resp w' :
  search ext query index_name k qid ef enc qg w = (Ok resp, w') →
  resp_qid resp = qid ∧ resp_text resp = query ∧
  ∃ c s hits,
    indexes w' !! index_name = Some c ∧ searcher c = Some s ∧
    searcher_search s query k = Ok hits ∧
    Forall2 (λ hit cand,
               cand_docid cand = hit_docid hit ∧
               cand_score cand = hit_score hit ∧
               hit_contents ext hit = Ok (cand_contents cand))
      hits (resp_candidates resp).
Proof.
  rewrite search_steps.
  destruct (or_add_index _ _ _ w) as [[c|e] w1] eqn:Hens; [|done].
  apply or_add_index_Ok_registered in Hens; [|done].
  destruct (searcher c) as [s|] eqn:Hs; [|done].
  destruct (searcher_search s query k) as [hits|tag] eqn:Hhits; [|done].
  destruct (candidates_of ext hits) as [candidates|e] eqn:Hcands; [|done].
  intros [= <- <-]. simpl. split_and!; [done..|].
  exists c, s, hits. split_and!; try done. by apply candidates_of_Ok.
Qed.

Lemma candidates_of_first_failure good bad rest e :
  Forall (λ hit, is_Ok (hit_contents ext hit) = true) good →
  hit_contents ext bad = Raise e →
  candidates_of ext (good ++ bad :: rest) = Raise e.
Proof.
  intros Hgood Hbad. induction Hgood as [|hit good Hhit _ IH]; simpl.
  - by rewrite Hbad.
  - destruct (hit_contents ext hit); [|done]. by rewrite IH.
Qed.

(** X6. No hit is dropped silently: when the payload of some hit does not
    yield a contents field, [search] on a loaded handle raises the error of
    the first such hit and returns no candidates at all. *)
Theorem search_bad_payload_raises query index_name k qid ef enc qg w c s good bad rest e :
  indexes w !! index_name = Some c →
  searcher c = Some s →
  searcher_search s query k = Ok (good ++ bad :: rest) →
  Forall (λ hit, is_Ok (hit_contents ext hit) = true) good →
  hit_contents ext bad = Raise e →
  (search ext query index_name k qid ef enc qg w).1 = Raise e.
Proof.
  intros Hc Hs Hhits Hgood Hbad.
  rewrite search_steps, Hc, (or_add_index_loaded _ _ _ s) by done.
  rewrite Hs, Hhits. simpl. by rewrite (candidates_of_first_failure _ _ _ e).
Qed.

(** X7. A [search] for a name whose handle is missing, or registered
    without a backend, registers a new handle built from its own
    arguments: name and path are the index name and the three settings are
    the ones passed to [search], so settings the old handle held are gone. *)
Theorem search_provisions_from_arguments query index_name k qid ef enc qg w c w1 :
  (∀ c0, indexes w !! index_name = Some c0 → searcher c0 = None) →
  add_index ext (IndexConfig_new index_name (Some index_name) ef enc qg) w = (Ok c, w1) →
  indexes (search ext query index_name k qid ef enc qg w).2
    = <[index_name := c]> (indexes w) ∧
  name c = index_name ∧ path c = Some index_name ∧
  ef_search c = ef ∧ encoder c = enc ∧ query_generator c = qg.
Proof.
  intros Hnone Hadd.
  rewrite search_steps, or_add_index_not_loaded, Hadd by done.
  apply add_index_Ok in Hadd as (? & ? & ? & ? & ? & Hreg). simpl in *.
  split_and!; try done. by destruct (searcher c).
Qed.

(** X8. Once the handle is loaded, the settings arguments of [search] are
    ignored: the call gives the same response and leaves the same
    controller whatever [ef_search], [encoder] and [query_generator] it is
    given. *)
Theorem search_loaded_ignores_settings query index_name k qid w c s ef enc qg ef' enc' qg' :
  indexes w !! index_name = Some c →
  searcher c = Some s →
  search ext query index_name k qid ef enc qg w
  = search ext query index_name k qid ef' enc' qg' w.
Proof.
  intros Hc Hs.
  by rewrite !search_steps, Hc, !(or_add_index_loaded _ _ _ s).
Qed.
(** ** Settings *)

(** A successful [update_settings], as a new registry entry. *)
Lemma update_settings_run index_name ef enc qg w c ef' :
  indexes w !! index_name = Some c →
  converted ext ef = Some ef' →
  update_settings ext index_name ef enc qg w
  = (Ok (), mkWorld (<[index_name :=
                        mkIndexConfig (name c) (path c)
                          (overwrite ef' (ef_search c))
                          (overwrite enc (encoder c))
                          (overwrite qg (query_generator c))
                          (searcher c)]> (indexes w)) (trace w)).
Proof.
  intros Hc Hconv. destruct w as [ix tr]. simpl in Hc.
  unfold update_settings, bind at 1, indexes_getitem. simpl. rewrite Hc. simpl.
  unfold converted in Hconv. destruct ef as [text|].
  - unfold int_call. destruct (py_int ext text) as [n|]; [|done].
    simpl in Hconv. injection Hconv as <-. unfold_ctl. simpl.
    destruct enc as [e|], qg as [g|]; simpl;
      rewrite <- (insert_id ix index_name c Hc) at 1;
      rewrite ?alter_insert_eq, ?insert_insert_eq; destruct c; reflexivity.
  - injection Hconv as <-. unfold_ctl. simpl.
    destruct enc as [e|], qg as [g|]; simpl;
      rewrite <- (insert_id ix index_name c Hc) at 1;
      rewrite ?alter_insert_eq, ?insert_insert_eq; destruct c; reflexivity.
Qed.

(** When [update_settings] returns, the handle existed and the provided
    search width converted. *)
Lemma update_settings_Ok_inv index_name ef enc qg w w1 :
  update_settings ext index_name ef enc qg w = (Ok (), w1) →
  ∃ c ef', indexes w !! index_name = Some c ∧ converted ext ef = Some ef'.
Proof.
  unfold update_settings, bind at 1, indexes_getitem.
  destruct (indexes w !! index_name) as [c|]; [|done]. simpl.
  unfold converted. destruct ef as [text|]; [|by eauto].
  unfold bind at 1, int_call. destruct (py_int ext text) as [n|]; [by eauto|done].
Qed.

(** X9. Applying the same successful update a second time changes
    nothing. *)
Theorem update_settings_idempotent index_name ef enc qg w w1 :
  update_settings ext index_name ef enc qg w = (Ok (), w1) →
  update_settings ext index_name ef enc qg w1 = (Ok (), w1).
Proof.
  intros Hrun.
  destruct (update_settings_Ok_inv _ _ _ _ _ _ Hrun) as (c & ef' & Hc & Hconv).
  rewrite (update_settings_run _ _ _ _ _ c ef' Hc Hconv) in Hrun.
  injection Hrun as <-.
  erewrite update_settings_run; [|apply lookup_insert_eq|exact Hconv].
  simpl. rewrite insert_insert_eq. do 3 f_equal.
  unfold converted in Hconv.
  destruct ef as [text|]; [destruct (py_int ext text); simplify_eq/=|simplify_eq/=];
    by destruct enc, qg.
Qed.

(** X10. Settings never reach a loaded backend.  Whatever
    [update_settings] is called with, and whether it returns or raises, a
    later [search] on a loaded handle gives the response it would have
    given before. *)
Theorem settings_do_not_reach_backend index_name ef enc qg w
    searched c s query k qid ef0 enc0 qg0 :
  indexes w !! searched = Some c →
  searcher c = Some s →
  (search ext query searched k qid ef0 enc0 qg0
     (update_settings ext index_name ef enc qg w).2).1
  = (search ext query searched k qid ef0 enc0 qg0 w).1.
Proof.
  intros Hc Hs.
  assert (Hafter : ∃ c', indexes (update_settings ext index_name ef enc qg w).2 !! searched
                         = Some c' ∧ searcher c' = Some s).
  { unfold update_settings, bind at 1, indexes_getitem.
    destruct (indexes w !! index_name) as [c0|] eqn:Hc0; [|by eauto]. simpl.
    assert (Halter : ∀ (f : IndexConfig Score → IndexConfig Score)
                       (m : gmap string (IndexConfig Score)) c1,
              (∀ x, searcher (f x) = searcher x) →
              m !! searched = Some c1 → searcher c1 = Some s →
              ∃ c', alter f index_name m !! searched = Some c' ∧ searcher c' = Some s).
    { intros f m c1 Hf Hm Hs1. destruct (decide (index_name = searched)) as [->|Hne].
      - rewrite lookup_alter_eq, Hm. simpl. eexists. split; [done|]. by rewrite Hf.
      - rewrite lookup_alter_ne by done. by eauto. }
    destruct ef as [text|]; unfold_ctl; simpl.
    - unfold int_call. destruct (py_int ext text) as [n|]; simpl; [|by eauto].
      destruct (Halter (λ x, set_ef_search x (Some n)) (indexes w) c) as (c1 & Hc1 & Hs1);
        [done..|].
      destruct enc as [e|]; simpl.
      + destruct (Halter (λ x, set_encoder x (Some e)) _ c1 ltac:(done) Hc1 Hs1)
          as (c2 & Hc2 & Hs2).
        destruct qg as [g|]; simpl; [|by eauto].
        by apply (Halter (λ x, set_query_generator x (Some g)) _ c2).
      + destruct qg as [g|]; simpl; [|by eauto].
        by apply (Halter (λ x, set_query_generator x (Some g)) _ c1).
    - destruct enc as [e|]; simpl.
      + destruct (Halter (λ x, set_encoder x (Some e)) _ c ltac:(done) Hc Hs)
          as (c2 & Hc2 & Hs2).
        destruct qg as [g|]; simpl; [|by eauto].
        by apply (Halter (λ x, set_query_generator x (Some g)) _ c2).
      + destruct qg as [g|]; simpl; [|by eauto].
        by apply (Halter (λ x, set_query_generator x (Some g)) _ c). }
  destruct Hafter as (c' & Hc' & Hs').
  rewrite !search_steps, Hc, Hc'.
  rewrite (or_add_index_loaded _ _ _ s) by done.
  rewrite (or_add_index_loaded _ _ _ s) by done.
  by rewrite Hs, Hs'.
Qed.

(** ** Documents *)

(** [get_document], step by step: read the handle, load the lexical
    backend into it if it has none, ask the backend for the document. *)
Lemma get_document_steps docid index_name w :
  get_document ext docid index_name w =
  match indexes w !! index_name with
  | None => (Raise (KeyError index_name), w)
  | Some c =>
      let (loaded, w1) :=
        match searcher c with
        | Some s => (Ok (Some s), w)
        | None =>
            match LuceneSearcher_from_prebuilt_index ext (name c) with
            | Ok s => (Ok s, mkWorld (alter (λ c0, set_searcher c0 s) index_name (indexes w))
                               (trace w ++ [EvLoadLucene (name c)]))
            | Raise tag => (Raise (BackendError tag),
                            mkWorld (indexes w) (trace w ++ [EvLoadLucene (name c)]))
            end
        end in
      match loaded with
      | Raise e => (Raise e, w1)
      | Ok None => (Raise (AttributeError "'NoneType' object has no attribute 'doc'"), w1)
      | Ok (Some s) =>
          (match searcher_doc s docid with
           | Raise tag => Raise (BackendError tag)
           | Ok None => Raise (ValueError (not_found_msg docid index_name))
           | Ok (Some d) => payload_text ext docid d
           end,
           mkWorld (indexes w1) (trace w1 ++ [EvDoc index_name docid]))
      end
  end.
Proof.
  assert (Htail : ∀ (s : Searcher Score) (w0 : World Score),
    ((doc <- (emit (EvDoc index_name docid);;; call (searcher_doc s docid));;
      match doc with
      | None => raise (ValueError (not_found_msg docid index_name))
      | Some d =>
          raw <- json_loads_call ext (doc_raw d);;
          contents <- of_result (json_getitem raw "contents");;
          ret (mkDocumentResponse docid contents)
      end)%ctl w0)
    = (match searcher_doc s docid with
       | Raise tag => Raise (BackendError tag)
       | Ok None => Raise (ValueError (not_found_msg docid index_name))
       | Ok (Some d) => payload_text ext docid d
       end,
       mkWorld (indexes w0) (trace w0 ++ [EvDoc index_name docid]))).
  { intros s w0. unfold payload_text, json_loads_call. unfold_ctl. simpl.
    destruct (searcher_doc s docid) as [[d|]|tag]; simpl; [|done..].
    destruct (doc_raw d) as [text|]; [|done].
    destruct (json_loads ext text) as [v|]; [|done].
    by destruct (json_getitem v "contents"). }
  unfold get_document, bind at 1, indexes_getitem.
  destruct (indexes w !! index_name) as [c|]; [|done].
  unfold bind at 1. destruct (searcher c) as [s|].
  - unfold ret at 1. apply Htail.
  - unfold bind at 1 2 3, emit at 1, call at 1.
    destruct (LuceneSearcher_from_prebuilt_index ext (name c)) as [s|tag]; [|done].
    unfold setattr at 1, ret at 1. simpl. destruct s as [s|]; [apply Htail|done].
Qed.

(** X11. [get_document] on a handle without a backend loads the lexical
    backend for the handle's name, whatever kind of index the name denotes,
    and stores it in that handle: name, path and settings stay, and no other
    entry changes. *)
Theorem get_document_loads_into_handle docid index_name w c s :
  indexes w !! index_name = Some c →
  searcher c = None →
  LuceneSearcher_from_prebuilt_index ext (name c) = Ok s →
  indexes (get_document ext docid index_name w).2
    = <[index_name := set_searcher c s]> (indexes w) ∧
  ∃ evs, trace (get_document ext docid index_name w).2
         = trace w ++ EvLoadLucene (name c) :: evs.
Proof.
  intros Hc Hs Hctor. rewrite get_document_steps, Hc, Hs, Hctor.
  assert (Hreg : alter (λ c0, set_searcher c0 s) index_name (indexes w)
                 = <[index_name := set_searcher c s]> (indexes w)).
  { rewrite <- (insert_id (indexes w) index_name c Hc) at 1. by rewrite alter_insert_eq. }
  destruct s as [s|]; simpl; rewrite Hreg; (split; [done|]).
  - exists [EvDoc index_name docid]. by rewrite <- (assoc_L (++)).
  - by exists [].
Qed.

(** X12. [get_document] never creates or removes a handle: the registered
    names are the same after the call, whatever its outcome.  For a name
    without a handle it raises [KeyError] and leaves the controller as it
    is, where [search] would have provisioned the index; for a loaded
    handle the registry is unchanged. *)
Theorem get_document_keeps_names docid index_name w :
  dom (indexes (get_document ext docid index_name w).2) = dom (indexes w) ∧
  (indexes w !! index_name = None →
   get_document ext docid index_name w = (Raise (KeyError index_name), w)) ∧
  (∀ c s, indexes w !! index_name = Some c → searcher c = Some s →
          indexes (get_document ext docid index_name w).2 = indexes w).
Proof.
  rewrite get_document_steps.
  destruct (indexes w !! index_name) as [c|] eqn:Hc; [|by split_and!].
  destruct (searcher c) as [s|] eqn:Hs; simpl.
  - split_and!; [done|done|by intros].
  - destruct (LuceneSearcher_from_prebuilt_index ext (name c)) as [[s|]|tag]; simpl;
      (split_and!; [by rewrite ?dom_alter_L|done|intros ? ? [= <-] ?; congruence]).
Qed.
(** ** The merge of the sharded search *)

(** With all shard tasks returning, the result is a slice of the sorted
    concatenation of their lists, taken in completion order. *)
Lemma sharded_search_pool order query k ef enc w :
  order ≡ₚ SHARDS →
  (∀ s, s ∈ SHARDS → is_Ok (shard_outcome ext s query k ef enc w) = true) →
  (sharded_search score_ltb ext order query k ef enc w).1
  = Ok (py_slice_to
          (sort_by_score_desc score_ltb
             (concat ((λ s, shard_results ext s query k ef enc w) <$> order))) k).
Proof.
  intros Hperm Hall.
  assert (Hnodup : NoDup order) by (rewrite Hperm; apply SHARDS_NoDup).
  destruct (run_shard_tasks_effect ext order query k ef enc w Hnodup) as (evs & Hfut & _).
  rewrite sharded_search_futures, Hfut.
  replace ((λ s, shard_outcome ext s query k ef enc w) <$> order)
    with (Ok (E:=exn) <$> ((λ s, shard_results ext s query k ef enc w) <$> order)).
  - by rewrite gather_all_Ok.
  - rewrite <- list_fmap_compose. apply list_fmap_ext. intros i s Hi. simpl.
    assert (Hs : s ∈ SHARDS) by (rewrite <- Hperm; by eapply list_elem_of_lookup_2).
    specialize (Hall s Hs). unfold shard_results.
    by destruct (shard_outcome ext s query k ef enc w).
Qed.

(** X13. When no two different entries of the pool tie in score, the
    order in which the shard tasks complete does not show in the result:
    any two completion orders give the same list. *)
Theorem sharded_search_order_irrelevant order1 order2 query k ef enc w :
  StrictWeakOrder score_ltb →
  order1 ≡ₚ SHARDS →
  order2 ≡ₚ SHARDS →
  (∀ s, s ∈ SHARDS → is_Ok (shard_outcome ext s query k ef enc w) = true) →
  (∀ x y, x ∈ candidate_pool ext query k ef enc w →
          y ∈ candidate_pool ext query k ef enc w →
          not_below score_ltb x y → not_below score_ltb y x → x = y) →
  (sharded_search score_ltb ext order1 query k ef enc w).1
  = (sharded_search score_ltb ext order2 query k ef enc w).1.
Proof.
  intros Hswo Hp1 Hp2 Hall Hties.
  rewrite !sharded_search_pool by done. do 2 f_equal.
  set (pool1 := concat ((λ s, shard_results ext s query k ef enc w) <$> order1)).
  set (pool2 := concat ((λ s, shard_results ext s query k ef enc w) <$> order2)).
  assert (H1 : pool1 ≡ₚ candidate_pool ext query k ef enc w).
  { unfold pool1, candidate_pool. by rewrite Hp1. }
  assert (H2 : pool2 ≡ₚ candidate_pool ext query k ef enc w).
  { unfold pool2, candidate_pool. by rewrite Hp2. }
  apply (StronglySorted_unique_strong (not_below score_ltb)).
  - intros x y Hx Hy. apply Hties.
    + by rewrite <- H1, <- (sort_by_score_desc_Permutation score_ltb pool1).
    + by rewrite <- H2, <- (sort_by_score_desc_Permutation score_ltb pool2).
  - by apply sort_by_score_desc_sorted.
  - by apply sort_by_score_desc_sorted.
  - by rewrite !sort_by_score_desc_Permutation, H1, H2.
Qed.

Lemma insert_desc_filter (P : ShardHit → Prop) `{!∀ x, Decision (P x)} x l :
  (∀ y, P x → P y → score_ltb (sh_score x) (sh_score y) = false) →
  filter P (insert_desc score_ltb x l) = filter P (x :: l).
Proof.
  intros Htie. induction l as [|y l IH]; simpl; [done|].
  destruct (score_ltb (sh_score x) (sh_score y)) eqn:Hxy; [|done].
  rewrite !filter_cons, IH. rewrite filter_cons.
  destruct (decide (P y)) as [Hy|]; [|done].
  destruct (decide (P x)) as [Hx|]; [|done].
  by rewrite (Htie y Hx Hy) in Hxy.
Qed.

(** X14. The merge is stable: entries that tie with a given score come
    out in the order they had in the pool, that is, in the order in which
    their shards completed. *)
Theorem sort_by_score_desc_stable v pool :
  StrictWeakOrder score_ltb →
  filter (tied_with score_ltb v) (sort_by_score_desc score_ltb pool)
  = filter (tied_with score_ltb v) pool.
Proof.
  intros Hswo. induction pool as [|x pool IH]; simpl; [done|].
  rewrite insert_desc_filter.
  - by rewrite !filter_cons, IH.
  - unfold tied_with. intros y Hx Hy.
    apply andb_prop_elim in Hx as [Hxv _]. apply andb_prop_elim in Hy as [_ Hvy].
    apply negb_prop_elim, Is_true_false_1 in Hxv.
    apply negb_prop_elim, Is_true_false_1 in Hvy.
    by apply (swo_incomp _ Hswo _ v).
Qed.

(** X15. [sharded_search] does not check [k].  With comparable scores
    and all shard tasks returning, [k = 0] gives the empty list, and a
    negative [k] gives the pool, sorted by descending score, without its
    last [-k] entries: a list of [length pool - (-k)] entries, which [k] does
    not bound. *)
Theorem sharded_search_unchecked_k order query k ef enc w :
  StrictWeakOrder score_ltb →
  order ≡ₚ SHARDS →
  (∀ s, s ∈ SHARDS → is_Ok (shard_outcome ext s query k ef enc w) = true) →
  (k ≤ 0)%Z →
  ∃ sorted,
    sorted ≡ₚ candidate_pool ext query k ef enc w ∧
    StronglySorted (not_below score_ltb) sorted ∧
    (k = 0 → (sharded_search score_ltb ext order query k ef enc w).1 = Ok []) ∧
    ((k < 0)%Z →
     (sharded_search score_ltb ext order query k ef enc w).1
     = Ok (take (length sorted - Z.to_nat (- k)) sorted) ∧
     length (take (length sorted - Z.to_nat (- k)) sorted)
     = (length (candidate_pool ext query k ef enc w) - Z.to_nat (- k))%nat).
Proof.
  intros Hswo Hperm Hall Hk.
  set (sorted := sort_by_score_desc score_ltb
                   (concat ((λ s, shard_results ext s query k ef enc w) <$> order))).
  assert (Hsorted : sorted ≡ₚ candidate_pool ext query k ef enc w).
  { unfold sorted. rewrite sort_by_score_desc_Permutation. unfold candidate_pool.
    by rewrite Hperm. }
  exists sorted. split_and!.
  - done.
  - by apply sort_by_score_desc_sorted.
  - intros ->. by rewrite sharded_search_pool.
  - intros Hneg. split.
    + rewrite sharded_search_pool by done. f_equal. unfold py_slice_to.
      destruct (Z.leb_spec 0 k) as [Hk0|Hk0]; [lia|done].
    + rewrite length_take, (Permutation_length Hsorted). lia.
Qed.
(** ** Provisioning of the shards *)

Lemma gather_Ok_inv (futures : list (result (list (ShardHit (Score:=Score))))) acc res :
  gather futures acc = Ok res → Forall (λ r, is_Ok r = true) futures.
Proof.
  revert acc. induction futures as [|r futures IH]; intros acc; [by constructor|].
  destruct r as [l|e]; simpl; [|done]. intros Hg. constructor; [done|]. by eapply IH.
Qed.

Lemma sharded_search_world order query k ef enc w :
  (sharded_search score_ltb ext order query k ef enc w).2
  = (run_shard_tasks ext order query k ef enc w).2.
Proof.
  unfold sharded_search. destruct (run_shard_tasks _ _ _ _ _ _ _) as [futures w'].
  by destruct (gather futures []).
Qed.

(** A shard task on a loaded handle only queries the backend. *)
Lemma _search_single_shard_loaded shard_name query k ef enc w c sr :
  indexes w !! shard_name = Some c →
  searcher c = Some sr →
  _search_single_shard ext shard_name query k ef enc w
  = (shard_answer c query k,
     mkWorld (indexes w) (trace w ++ [EvSearch shard_name query k])).
Proof.
  intros Hc Hs.
  by rewrite _search_single_shard_steps, Hc, (or_add_index_loaded _ _ _ sr), Hs.
Qed.

(** A shard task that returns leaves its shard loaded. *)
Lemma _search_single_shard_Ok_loaded shard_name query k ef enc w :
  is_Ok (shard_outcome ext shard_name query k ef enc w) = true →
  ∃ c sr, indexes (_search_single_shard ext shard_name query k ef enc w).2 !! shard_name
          = Some c ∧ searcher c = Some sr.
Proof.
  unfold shard_outcome. rewrite _search_single_shard_steps.
  destruct (or_add_index _ _ _ w) as [[c|e] w1] eqn:Hens; [|done].
  apply or_add_index_Ok_registered in Hens; [|done].
  simpl. unfold shard_answer. destruct (searcher c) as [sr|] eqn:Hs; [|done].
  intros _. by exists c, sr.
Qed.

Lemma run_shard_tasks_Ok_loaded order query k ef enc w :
  NoDup order →
  ∀ s, s ∈ order →
       is_Ok (shard_outcome ext s query k ef enc w) = true →
       ∃ c sr, indexes (run_shard_tasks ext order query k ef enc w).2 !! s = Some c ∧
               searcher c = Some sr.
Proof.
  intros Hnodup. revert w.
  induction Hnodup as [|s0 rest Hs0 Hrest IH]; intros w s Hs Hok.
  { by apply elem_of_nil in Hs. }
  simpl.
  destruct (_search_single_shard_effect ext s0 query k ef enc w)
    as (evs1 & ix & Hw1 & Hframe & _).
  pose proof (_search_single_shard_Ok_loaded s0 query k ef enc w) as Hloaded.
  destruct (_search_single_shard ext s0 query k ef enc w) as [r w1] eqn:Htask.
  simpl in Hw1, Hloaded.
  destruct (run_shard_tasks_effect ext rest query k ef enc w1 Hrest)
    as (evs2 & _ & _ & Hkeep & _).
  specialize (IH w1).
  destruct (run_shard_tasks ext rest query k ef enc w1) as [rs w2]. simpl in *.
  apply elem_of_cons in Hs as [->|Hs].
  - destruct (Hloaded Hok) as (c & sr & Hc & Hsr). exists c, sr. by rewrite Hkeep.
  - apply IH; [done|].
    destruct (_search_single_shard_effect ext s query k ef enc w)
      as (_ & _ & _ & _ & _ & _ & Hlocal).
    rewrite Hlocal; [done|]. subst w1. simpl. apply Hframe. by intros ->.
Qed.

Lemma run_shard_tasks_all_loaded order query k ef enc w :
  (∀ s, s ∈ order → ∃ c sr, indexes w !! s = Some c ∧ searcher c = Some sr) →
  indexes (run_shard_tasks ext order query k ef enc w).2 = indexes w ∧
  filter is_load (trace (run_shard_tasks ext order query k ef enc w).2)
  = filter is_load (trace w).
Proof.
  revert w. induction order as [|s0 rest IH]; intros w Hall; [done|].
  simpl. destruct (Hall s0) as (c & sr & Hc & Hs); [left|].
  rewrite (_search_single_shard_loaded _ _ _ _ _ _ c sr) by done.
  specialize (IH (mkWorld (indexes w) (trace w ++ [EvSearch s0 query k]))).
  destruct (run_shard_tasks ext rest query k ef enc _) as [rs w2]. simpl in *.
  destruct IH as [Hix Htr]; [intros s Hin; apply Hall; by right|].
  split; [done|]. rewrite Htr, filter_app. simpl. by rewrite app_nil_r.
Qed.

(** X16. After a [sharded_search] that returned a list, every shard is
    loaded, and a further [sharded_search], whatever its query, [k],
    [ef_search], encoder and completion order, constructs no backend and
    leaves the registry as it is: the [ef_search] and [encoder] of the
    later call are not applied to the loaded shards. *)
Theorem sharded_search_again_loads_nothing order1 order2 query k ef enc w res
    query' k' ef' enc' :
  order1 ≡ₚ SHARDS →
  order2 ≡ₚ SHARDS →
  (sharded_search score_ltb ext order1 query k ef enc w).1 = Ok res →
  let w1 := (sharded_search score_ltb ext order1 query k ef enc w).2 in
  let w2 := (sharded_search score_ltb ext order2 query' k' ef' enc' w1).2 in
  (∀ s, s ∈ SHARDS → ∃ c sr, indexes w1 !! s = Some c ∧ searcher c = Some sr) ∧
  indexes w2 = indexes w1 ∧
  filter is_load (trace w2) = filter is_load (trace w1).
Proof.
  intros Hp1 Hp2 Hres.
  assert (Hnodup : NoDup order1) by (rewrite Hp1; apply SHARDS_NoDup).
  assert (Hloaded : ∀ s, s ∈ SHARDS →
            ∃ c sr, indexes (sharded_search score_ltb ext order1 query k ef enc w).2 !! s
                    = Some c ∧ searcher c = Some sr).
  { intros s Hs. rewrite sharded_search_world.
    apply run_shard_tasks_Ok_loaded; [done|by rewrite Hp1|].
    rewrite sharded_search_futures in Hres.
    destruct (gather (run_shard_tasks ext order1 query k ef enc w).1 []) as [all|e] eqn:Hg;
      [|done].
    apply gather_Ok_inv in Hg.
    destruct (run_shard_tasks_effect ext order1 query k ef enc w Hnodup) as (evs & Hfut & _).
    rewrite Hfut, Forall_fmap, Forall_forall in Hg. apply Hg. by rewrite Hp1. }
  simpl. split; [done|]. rewrite (sharded_search_world order2).
  apply run_shard_tasks_all_loaded. intros s Hs. apply Hloaded. by rewrite <- Hp2.
Qed.
(** The backends a shard task constructs: the HNSW one of its shard, from
    the caller's [ef_search] and [encoder], and only when the shard is not
    loaded. *)
Lemma _search_single_shard_loads shard_name query k ef enc w :
  shard_name ∈ SHARDS →
  ∃ evs,
    trace (_search_single_shard ext shard_name query k ef enc w).2 = trace w ++ evs ∧
    (∀ ev, ev ∈ evs → is_load ev = true →
           ev = EvLoadHnsw shard_name (Some ef) (Some enc) ∧
           ∀ c, indexes w !! shard_name = Some c → searcher c = None) ∧
    ((∀ c, indexes w !! shard_name = Some c → searcher c = None) →
     EvLoadHnsw shard_name (Some ef) (Some enc) ∈ evs).
Proof.
  intros Hshard.
  assert (Hcase : (∀ c, indexes w !! shard_name = Some c → searcher c = None) ∨
                  (∃ c sr, indexes w !! shard_name = Some c ∧ searcher c = Some sr)).
  { destruct (indexes w !! shard_name) as [c|]; [|by left].
    destruct (searcher c) as [sr|] eqn:Hs; [right; by exists c, sr|].
    left. by intros ? [= <-]. }
  destruct Hcase as [Hnone|(c & sr & Hc & Hs)].
  - rewrite _search_single_shard_steps, or_add_index_not_loaded by done.
    unfold add_index. simpl. rewrite bool_decide_eq_true_2 by done.
    unfold_ctl. simpl.
    destruct (LuceneHnswDenseSearcher_from_prebuilt_index ext shard_name (Some ef) (Some enc))
      as [[sr|]|tag]; simpl.
    + exists [EvLoadHnsw shard_name (Some ef) (Some enc); EvSearch shard_name query k].
      rewrite <- (assoc_L (++)). split_and!; [done| |by left].
      intros ev [->|Hev]%elem_of_cons Hload; [done|].
      apply list_elem_of_singleton in Hev as ->. done.
    + exists [EvLoadHnsw shard_name (Some ef) (Some enc)]. split_and!; [done| |by left].
      by intros ev ->%list_elem_of_singleton _.
    + exists [EvLoadHnsw shard_name (Some ef) (Some enc)]. split_and!; [done| |by left].
      by intros ev ->%list_elem_of_singleton _.
  - rewrite (_search_single_shard_loaded _ _ _ _ _ _ c sr) by done.
    exists [EvSearch shard_name query k]. split_and!; [done| |].
    + by intros ev ->%list_elem_of_singleton.
    + intros Hnone. specialize (Hnone c Hc). congruence.
Qed.

Lemma run_shard_tasks_loads order query k ef enc w :
  NoDup order →
  (∀ s, s ∈ order → s ∈ SHARDS) →
  ∃ evs,
    trace (run_shard_tasks ext order query k ef enc w).2 = trace w ++ evs ∧
    (∀ ev, ev ∈ evs → is_load ev = true →
           ∃ s, s ∈ order ∧ ev = EvLoadHnsw s (Some ef) (Some enc) ∧
                ∀ c, indexes w !! s = Some c → searcher c = None) ∧
    (∀ s, s ∈ order → (∀ c, indexes w !! s = Some c → searcher c = None) →
          EvLoadHnsw s (Some ef) (Some enc) ∈ evs).
Proof.
  intros Hnodup. revert w.
  induction Hnodup as [|s0 rest Hs0 Hrest IH]; intros w Hshards.
  { exists []. simpl. rewrite app_nil_r. split_and!; [done| |].
    - intros ev Hev. by apply elem_of_nil in Hev.
    - intros s Hs. by apply elem_of_nil in Hs. }
  simpl.
  destruct (_search_single_shard_loads s0 query k ef enc w) as (evs1 & Ht1 & Hl1 & Hn1);
    [apply Hshards; left|].
  destruct (_search_single_shard_effect ext s0 query k ef enc w)
    as (evs1' & ix & Hw1 & Hframe & _).
  destruct (_search_single_shard ext s0 query k ef enc w) as [r w1].
  simpl in Ht1, Hw1.
  destruct (IH w1) as (evs2 & Ht2 & Hl2 & Hn2); [intros s Hs; apply Hshards; by right|].
  destruct (run_shard_tasks ext rest query k ef enc w1) as [rs w2]. simpl in *.
  assert (Hsame : ∀ s, s ∈ rest → indexes w1 !! s = indexes w !! s).
  { intros s Hs. subst w1. simpl. apply Hframe. by intros ->. }
  exists (evs1 ++ evs2). split_and!.
  - by rewrite Ht2, Ht1, (assoc_L (++)).
  - intros ev [Hev|Hev]%elem_of_app Hload.
    + destruct (Hl1 ev Hev Hload) as [-> Hnone]. exists s0. split_and!; [left|done|done].
    + destruct (Hl2 ev Hev Hload) as (s & Hs & -> & Hnone).
      exists s. split_and!; [by right|done|]. by rewrite <- (Hsame s Hs).
  - intros s [->|Hs]%elem_of_cons Hnone; apply elem_of_app.
    + left. by apply Hn1.
    + right. apply Hn2; [done|]. by rewrite (Hsame s Hs).
Qed.

(** X17. [sharded_search] constructs a backend for exactly the shards
    that are not loaded when it is called, for each of them the HNSW backend
    with the caller's [ef_search] and [encoder], and no other backend. *)
Theorem sharded_search_loads_missing_shards order query k ef enc w :
  order ≡ₚ SHARDS →
  ∃ evs,
    trace (sharded_search score_ltb ext order query k ef enc w).2 = trace w ++ evs ∧
    (∀ ev, ev ∈ evs → is_load ev = true →
           ∃ s, s ∈ SHARDS ∧ ev = EvLoadHnsw s (Some ef) (Some enc) ∧
                ∀ c, indexes w !! s = Some c → searcher c = None) ∧
    (∀ s, s ∈ SHARDS → (∀ c, indexes w !! s = Some c → searcher c = None) →
          EvLoadHnsw s (Some ef) (Some enc) ∈ evs).
Proof.
  intros Hperm.
  assert (Hnodup : NoDup order) by (rewrite Hperm; apply SHARDS_NoDup).
  destruct (run_shard_tasks_loads order query k ef enc w Hnodup) as (evs & Ht & Hl & Hn).
  { intros s Hs. by rewrite <- Hperm. }
  exists evs. rewrite sharded_search_world. split_and!; [done| |].
  - intros ev Hev Hload. destruct (Hl ev Hev Hload) as (s & Hs & ? & ?).
    exists s. by rewrite <- Hperm.
  - intros s Hs. apply Hn. by rewrite Hperm.
Qed.
(** ** The registry over the life of a controller *)

Lemma keeps_registry_same w w' : indexes w' = indexes w → keeps_registry ext w w'.
Proof. intros Heq. unfold keeps_registry, registry_ok. by rewrite Heq. Qed.

Lemma keeps_registry_trans w1 w2 w3 :
  keeps_registry ext w1 w2 → keeps_registry ext w2 w3 → keeps_registry ext w1 w3.
Proof.
  intros [Hok1 Hdom1] [Hok2 Hdom2]. split; [by auto|]. by etrans.
Qed.

Lemma keeps_registry_alter w (f : IndexConfig Score → IndexConfig Score) key tr :
  (∀ x, name (f x) = name x) →
  keeps_registry ext w (mkWorld (alter f key (indexes w)) tr).
Proof.
  intros Hf. split; simpl.
  - intros Hok j c. simpl. destruct (decide (key = j)) as [->|Hne].
    + rewrite lookup_alter_eq. destruct (indexes w !! j) as [c0|] eqn:Hc0; [|done].
      intros [= <-]. rewrite Hf. by apply Hok.
    + rewrite lookup_alter_ne by done. apply Hok.
  - by rewrite dom_alter_L.
Qed.

Lemma keeps_registry_insert w c tr :
  name c ∈ SHARDS ∨ is_Some (TF_INDEX_INFO ext !! name c) →
  keeps_registry ext w (mkWorld (<[name c := c]> (indexes w)) tr).
Proof.
  intros Hsup. split; simpl.
  - intros Hok j c'. simpl. destruct (decide (name c = j)) as [<-|Hne].
    + rewrite lookup_insert_eq. by intros [= <-].
    + rewrite lookup_insert_ne by done. apply Hok.
  - rewrite dom_insert_L. apply union_subseteq_r.
Qed.

Lemma add_index_keeps_registry config w :
  keeps_registry ext w (add_index ext config w).2.
Proof.
  unfold add_index.
  case_bool_decide as Hshard; [|case_bool_decide as Htf]; unfold_ctl; simpl.
  - destruct (LuceneHnswDenseSearcher_from_prebuilt_index _ _ _ _) as [s|tag]; simpl.
    + apply (keeps_registry_insert w (set_searcher config s)). by left.
    + by apply keeps_registry_same.
  - destruct (LuceneSearcher_from_prebuilt_index _ _) as [s|tag]; simpl.
    + apply (keeps_registry_insert w (set_searcher config s)). by right.
    + by apply keeps_registry_same.
  - by apply keeps_registry_same.
Qed.

Lemma or_add_index_keeps_registry found fresh w :
  keeps_registry ext w (or_add_index ext found fresh w).2.
Proof.
  unfold or_add_index. destruct found as [c|]; [|apply add_index_keeps_registry].
  simpl. destruct (searcher c); [by apply keeps_registry_same|].
  apply add_index_keeps_registry.
Qed.

Lemma search_keeps_registry query index_name k qid ef enc qg w :
  keeps_registry ext w (search ext query index_name k qid ef enc qg w).2.
Proof.
  rewrite search_steps.
  pose proof (or_add_index_keeps_registry (indexes w !! index_name)
                (IndexConfig_new index_name (Some index_name) ef enc qg) w) as Hkeep.
  destruct (or_add_index _ _ _ w) as [[c|e] w1]; simpl in *; [|done].
  destruct (searcher c); [|done].
  eapply keeps_registry_trans; [exact Hkeep|]. by apply keeps_registry_same.
Qed.

Lemma run_shard_tasks_keeps_registry order query k ef enc w :
  keeps_registry ext w (run_shard_tasks ext order query k ef enc w).2.
Proof.
  revert w. induction order as [|s rest IH]; intros w; [by apply keeps_registry_same|].
  simpl.
  assert (Htask : keeps_registry ext w (_search_single_shard ext s query k ef enc w).2).
  { rewrite _search_single_shard_steps.
    pose proof (or_add_index_keeps_registry (indexes w !! s)
                  (IndexConfig_new s None (Some ef) (Some enc) None) w) as Hkeep.
    destruct (or_add_index _ _ _ w) as [[c|e] w1]; simpl in *; [|done].
    destruct (searcher c); [|done].
    eapply keeps_registry_trans; [exact Hkeep|]. by apply keeps_registry_same. }
  destruct (_search_single_shard ext s query k ef enc w) as [r w1]. simpl in Htask.
  specialize (IH w1). destruct (run_shard_tasks ext rest query k ef enc w1) as [rs w2].
  simpl in *. by eapply keeps_registry_trans.
Qed.

Lemma get_document_keeps_registry docid index_name w :
  keeps_registry ext w (get_document ext docid index_name w).2.
Proof.
  rewrite get_document_steps.
  destruct (indexes w !! index_name) as [c|]; [|by apply keeps_registry_same].
  destruct (searcher c) as [s|]; simpl.
  - by apply keeps_registry_same.
  - destruct (LuceneSearcher_from_prebuilt_index ext (name c)) as [[s|]|tag]; simpl;
      try (by apply keeps_registry_same).
    + by apply keeps_registry_alter.
    + by apply keeps_registry_alter.
Qed.

Lemma update_settings_keeps_registry index_name ef enc qg w :
  keeps_registry ext w (update_settings ext index_name ef enc qg w).2.
Proof.
  assert (Htail : ∀ w0,
    keeps_registry ext w0
      ((match enc with
        | Some e => setattr index_name (λ c, set_encoder c (Some e))
        | None => ret ()
        end;;;
        match qg with
        | Some g => setattr index_name (λ c, set_query_generator c (Some g))
        | None => ret ()
        end)%ctl w0).2).
  { intros w0. unfold_ctl. destruct enc as [e|], qg as [g|]; simpl.
    - apply (keeps_registry_trans _
               (mkWorld (alter (λ c, set_encoder c (Some e)) index_name (indexes w0))
                  (trace w0))); [by apply keeps_registry_alter|].
      by apply (keeps_registry_alter (mkWorld _ _)).
    - by apply keeps_registry_alter.
    - by apply keeps_registry_alter.
    - by apply keeps_registry_same. }
  unfold update_settings, bind at 1, indexes_getitem.
  destruct (indexes w !! index_name) as [c|]; [|by apply keeps_registry_same]. simpl.
  unfold bind at 1. destruct ef as [text|].
  - unfold bind at 1, int_call. destruct (py_int ext text) as [n|];
      [|by apply keeps_registry_same].
    unfold ret at 1, setattr at 1.
    eapply keeps_registry_trans; [|apply Htail].
    by apply keeps_registry_alter.
  - unfold ret at 1. apply Htail.
Qed.

Lemma after_call_keeps_registry call w :
  keeps_registry ext w (after_call score_ltb ext call w).
Proof.
  destruct call; simpl.
  - apply add_index_keeps_registry.
  - unfold initialize_default_index. case_bool_decide; [|by apply keeps_registry_same].
    unfold bind, ret.
    pose proof (add_index_keeps_registry
                  (IndexConfig_new default_index None None None None) w) as Hkeep.
    by destruct (add_index _ _ w) as [[c|e] w1].
  - by apply keeps_registry_same.
  - apply search_keeps_registry.
  - rewrite sharded_search_world. apply run_shard_tasks_keeps_registry.
  - apply get_document_keeps_registry.
  - by apply keeps_registry_same.
  - apply update_settings_keeps_registry.
  - apply keeps_registry_same. unfold get_settings, bind, indexes_getitem.
    by destruct (indexes w !! index_name).
Qed.

(** X18. In every controller that a new one becomes through calls of its
    methods, in any number and order and whether they return or raise,
    each handle is registered under its own name, and that name is a shard
    name or an index of the lexical catalog. *)
Theorem reachable_registry_ok w :
  reachable score_ltb ext w → registry_ok ext w.
Proof.
  induction 1 as [|call w _ IH].
  - intros key c Hc. simpl in Hc. by rewrite lookup_empty in Hc.
  - by apply (after_call_keeps_registry call w).
Qed.

(** X19. No method ever removes a handle: a name registered before a call
    is registered after it, whatever the call and its outcome. *)
Theorem after_call_keeps_handles call w :
  dom (indexes w) ⊆ dom (indexes (after_call score_ltb ext call w)).
Proof. apply (after_call_keeps_registry call w). Qed.
End Further.

(** * Part VI: the further properties on the installation of Part II *)

(** X1 on the installation: provisioning shard 2 in a new controller. *)
Lemma add_index_registers_witness :
  let config := IndexConfig_new (Score:=Z) (Demo.shard 2) None (Some 64) (Some "arctic") None in
  let c := mkIndexConfig (Demo.shard 2) None (Some 64) (Some "arctic") None
             (Some (Demo.shard_searcher 2)) in
  let w' := (add_index Demo.ext config Demo.new_controller).2 in
  add_index Demo.ext config Demo.new_controller = (Ok c, w') ∧
  indexes w' = <[Demo.shard 2 := c]> (indexes Demo.new_controller) ∧
  trace w' = [EvLoadHnsw (Demo.shard 2) (Some 64) (Some "arctic")].
Proof.
  intros config c w'.
  assert (Hrun : add_index Demo.ext config Demo.new_controller = (Ok c, w'))
    by (vm_compute; reflexivity).
  destruct (add_index_registers Demo.ext config Demo.new_controller c w' Hrun)
    as (Hix & _ & Hshard & _).
  split_and!; [exact Hrun|exact Hix|].
  apply Hshard. apply (bool_decide_unpack _). vm_compute. exact I.
Defined.

(** X2 on the installation without network. *)
Lemma add_index_load_failure_witness :
  let config := IndexConfig_new (Score:=Z) DEFAULT_INDEX None None None None in
  ((name config ∉ SHARDS) ∧ is_Some (TF_INDEX_INFO Demo.ext_offline !! name config) ∧
   LuceneSearcher_from_prebuilt_index Demo.ext_offline (name config)
   = Raise "download failed") ∧
  (add_index Demo.ext_offline config Demo.new_controller).1
  = Raise (BackendError "download failed") ∧
  indexes (add_index Demo.ext_offline config Demo.new_controller).2
  = indexes Demo.new_controller.
Proof.
  intros config.
  assert (Hhyp : (name config ∉ SHARDS) ∧
                 is_Some (TF_INDEX_INFO Demo.ext_offline !! name config) ∧
                 LuceneSearcher_from_prebuilt_index Demo.ext_offline (name config)
                 = Raise "download failed").
  { split_and!; [apply (bool_decide_unpack _); vm_compute; exact I
                |vm_compute; eexists; reflexivity|reflexivity]. }
  split; [exact Hhyp|].
  apply (add_index_load_failure Demo.ext_offline config Demo.new_controller "download failed").
  right. exact Hhyp.
Defined.

(** X3 on the installation: a shard name is no default index. *)
Lemma initialize_default_index_cases_witness :
  initialize_default_index Demo.ext (Demo.shard 0) Demo.new_controller
  = (Raise (ValueError (no_default_msg (Demo.shard 0))), Demo.new_controller).
Proof.
  assert (Hnone : TF_INDEX_INFO Demo.ext !! Demo.shard 0 = None) by (vm_compute; reflexivity).
  destruct (initialize_default_index_cases Demo.ext (Demo.shard 0) Demo.new_controller)
    as (Hiff & Hsame & _).
  apply (proj2 Hiff) in Hnone as Hres. apply Hsame in Hnone.
  destruct (initialize_default_index Demo.ext (Demo.shard 0) Demo.new_controller) as [r w1].
  simpl in *. by subst.
Defined.

(** X5 on the installation: the two passages, best first. *)
Lemma search_candidates_follow_hits_witness :
  let resp := mkQueryResponse "q1" "hello"
                [mkCandidate "7187158" 12 (JStr "hello world");
                 mkCandidate "7187157" 7 (JStr "second passage")] in
  let w' := (search Demo.ext "hello" DEFAULT_INDEX 10 "q1" None None None Demo.controller).2 in
  search Demo.ext "hello" DEFAULT_INDEX 10 "q1" None None None Demo.controller = (Ok resp, w') ∧
  ∃ c s hits,
    indexes w' !! DEFAULT_INDEX = Some c ∧ searcher c = Some s ∧
    searcher_search s "hello" 10 = Ok hits ∧
    Forall2 (λ hit cand,
               cand_docid cand = hit_docid hit ∧
               cand_score cand = hit_score hit ∧
               hit_contents Demo.ext hit = Ok (cand_contents cand))
      hits (resp_candidates resp).
Proof.
  intros resp w'.
  assert (Hrun : search Demo.ext "hello" DEFAULT_INDEX 10 "q1" None None None Demo.controller
                 = (Ok resp, w')) by (vm_compute; reflexivity).
  split; [exact Hrun|].
  apply (search_candidates_follow_hits Demo.ext "hello" DEFAULT_INDEX 10 "q1" None None None
           Demo.controller resp w' Hrun).
Defined.

(** X6 on the installation: the second of three hits has the payload [{}]. *)
Lemma search_bad_payload_raises_witness :
  let good := [mkHit "7187158" 12 (Some (Demo.payload "hello world"))] in
  let bad := mkHit "7187159" 9 (Some "{}") in
  let rest := [mkHit "7187157" 7 (Some (Demo.payload "second passage"))] in
  indexes Demo.controller_damaged !! DEFAULT_INDEX = Some Demo.damaged_handle ∧
  searcher Demo.damaged_handle = Some Demo.damaged_searcher ∧
  searcher_search Demo.damaged_searcher "hello" 10 = Ok (good ++ bad :: rest) ∧
  Forall (λ hit, is_Ok (hit_contents Demo.ext hit) = true) good ∧
  hit_contents Demo.ext bad = Raise (KeyError "contents") ∧
  (search Demo.ext "hello" DEFAULT_INDEX 10 "q1" None None None Demo.controller_damaged).1
  = Raise (KeyError "contents").
Proof.
  intros good bad rest.
  assert (Hc : indexes Demo.controller_damaged !! DEFAULT_INDEX = Some Demo.damaged_handle)
    by (vm_compute; reflexivity).
  assert (Hgood : Forall (λ hit, is_Ok (hit_contents Demo.ext hit) = true) good)
    by (repeat constructor).
  assert (Hbad : hit_contents Demo.ext bad = Raise (KeyError "contents"))
    by (vm_compute; reflexivity).
  split_and!; [exact Hc|reflexivity|reflexivity|exact Hgood|exact Hbad|].
  exact (search_bad_payload_raises Demo.ext "hello" DEFAULT_INDEX 10 "q1" None None None
           Demo.controller_damaged Demo.damaged_handle Demo.damaged_searcher
           good bad rest (KeyError "contents") Hc eq_refl eq_refl Hgood Hbad).
Defined.

(** X7 on the installation: the registered handle has no backend, search
    width 5 and encoder "old"; the search passes search width 7 and a query
    generator. *)
Lemma search_provisions_from_arguments_witness :
  let c := mkIndexConfig DEFAULT_INDEX (Some DEFAULT_INDEX) (Some 7) None (Some "bm25")
             (Some Demo.passage_searcher) in
  let fresh := IndexConfig_new (Score:=Z) DEFAULT_INDEX (Some DEFAULT_INDEX)
                 (Some 7) None (Some "bm25") in
  (∀ c0, indexes Demo.controller_unloaded !! DEFAULT_INDEX = Some c0 → searcher c0 = None) ∧
  add_index Demo.ext fresh Demo.controller_unloaded
  = (Ok c, (add_index Demo.ext fresh Demo.controller_unloaded).2) ∧
  indexes (search Demo.ext "hello" DEFAULT_INDEX 10 "q1" (Some 7) None (Some "bm25")
             Demo.controller_unloaded).2
  = <[DEFAULT_INDEX := c]> (indexes Demo.controller_unloaded) ∧
  encoder c = None.
Proof.
  intros c fresh.
  assert (Hnone : ∀ c0, indexes Demo.controller_unloaded !! DEFAULT_INDEX = Some c0 →
                        searcher c0 = None).
  { intros c0. unfold Demo.controller_unloaded. simpl. rewrite lookup_singleton_eq.
    by intros [= <-]. }
  assert (Hadd : add_index Demo.ext fresh Demo.controller_unloaded
                 = (Ok c, (add_index Demo.ext fresh Demo.controller_unloaded).2))
    by (vm_compute; reflexivity).
  destruct (search_provisions_from_arguments Demo.ext "hello" DEFAULT_INDEX 10 "q1"
              (Some 7) None (Some "bm25") Demo.controller_unloaded c _ Hnone Hadd)
    as (Hix & _ & _ & _ & Henc & _).
  split_and!; [exact Hnone|exact Hadd|exact Hix|exact Henc].
Defined.

(** X8 on the installation. *)
Lemma search_loaded_ignores_settings_witness :
  indexes Demo.controller !! DEFAULT_INDEX = Some Demo.default_handle ∧
  searcher Demo.default_handle = Some Demo.passage_searcher ∧
  search Demo.ext "hello" DEFAULT_INDEX 10 "q1" (Some 7) (Some "x") None Demo.controller
  = search Demo.ext "hello" DEFAULT_INDEX 10 "q1" None None (Some "bm25") Demo.controller.
Proof.
  assert (Hc : indexes Demo.controller !! DEFAULT_INDEX = Some Demo.default_handle)
    by (vm_compute; reflexivity).
  split_and!; [exact Hc|reflexivity|].
  exact (search_loaded_ignores_settings Demo.ext "hello" DEFAULT_INDEX 10 "q1"
           Demo.controller Demo.default_handle Demo.passage_searcher
           (Some 7) (Some "x") None None None (Some "bm25") Hc eq_refl).
Defined.

(** X9 on the installation. *)
Lemma update_settings_idempotent_witness :
  update_settings Demo.ext DEFAULT_INDEX (Some "100") None (Some "rm3") Demo.controller
  = (Ok (), Demo.controller_with_settings) ∧
  update_settings Demo.ext DEFAULT_INDEX (Some "100") None (Some "rm3")
    Demo.controller_with_settings
  = (Ok (), Demo.controller_with_settings).
Proof.
  assert (Hrun : update_settings Demo.ext DEFAULT_INDEX (Some "100") None (Some "rm3")
                   Demo.controller = (Ok (), Demo.controller_with_settings))
    by (vm_compute; reflexivity).
  split; [exact Hrun|].
  exact (update_settings_idempotent Demo.ext DEFAULT_INDEX (Some "100") None (Some "rm3")
           Demo.controller Demo.controller_with_settings Hrun).
Defined.

(** X10 on the installation. *)
Lemma settings_do_not_reach_backend_witness :
  indexes Demo.controller !! DEFAULT_INDEX = Some Demo.default_handle ∧
  searcher Demo.default_handle = Some Demo.passage_searcher ∧
  (search Demo.ext "hello" DEFAULT_INDEX 10 "q1" None None None
     (update_settings Demo.ext DEFAULT_INDEX (Some "100") (Some "X") None Demo.controller).2).1
  = (search Demo.ext "hello" DEFAULT_INDEX 10 "q1" None None None Demo.controller).1.
Proof.
  assert (Hc : indexes Demo.controller !! DEFAULT_INDEX = Some Demo.default_handle)
    by (vm_compute; reflexivity).
  split_and!; [exact Hc|reflexivity|].
  exact (settings_do_not_reach_backend Demo.ext DEFAULT_INDEX (Some "100") (Some "X") None
           Demo.controller DEFAULT_INDEX Demo.default_handle Demo.passage_searcher
           "hello" 10 "q1" None None None Hc eq_refl).
Defined.

(** X11 on the installation. *)
Lemma get_document_loads_into_handle_witness :
  indexes Demo.controller_unloaded !! DEFAULT_INDEX = Some Demo.unloaded_handle ∧
  searcher Demo.unloaded_handle = None ∧
  LuceneSearcher_from_prebuilt_index Demo.ext (name Demo.unloaded_handle)
  = Ok (Some Demo.passage_searcher) ∧
  indexes (get_document Demo.ext "7187158" DEFAULT_INDEX Demo.controller_unloaded).2
  = <[DEFAULT_INDEX := set_searcher Demo.unloaded_handle (Some Demo.passage_searcher)]>
      (indexes Demo.controller_unloaded) ∧
  ∃ evs, trace (get_document Demo.ext "7187158" DEFAULT_INDEX Demo.controller_unloaded).2
         = trace Demo.controller_unloaded ++ EvLoadLucene (name Demo.unloaded_handle) :: evs.
Proof.
  assert (Hc : indexes Demo.controller_unloaded !! DEFAULT_INDEX = Some Demo.unloaded_handle)
    by (vm_compute; reflexivity).
  split_and!; [exact Hc|reflexivity|reflexivity|..];
    apply (get_document_loads_into_handle Demo.ext "7187158" DEFAULT_INDEX
             Demo.controller_unloaded Demo.unloaded_handle (Some Demo.passage_searcher)
             Hc eq_refl eq_refl).
Defined.

(** X12 on the installation. *)
Lemma get_document_keeps_names_witness :
  get_document Demo.ext "7187158" "not-a-real-index" Demo.controller
  = (Raise (KeyError "not-a-real-index"), Demo.controller).
Proof.
  apply (get_document_keeps_names Demo.ext "7187158" "not-a-real-index" Demo.controller).
  vm_compute. reflexivity.
Defined.

(** With [k = 1] every shard of the installation answers with its best
    document; the ten scores are 100, 99, ..., 91. *)
Lemma demo_shards_answer_one :
  ∀ s, s ∈ SHARDS →
       is_Ok (shard_outcome Demo.ext s "q" 1 100 "arctic" Demo.new_controller) = true.
Proof.
  apply Forall_forall.
  let shards := eval vm_compute in SHARDS in change SHARDS with shards.
  repeat (constructor; [vm_compute; reflexivity|]). constructor.
Defined.

Lemma demo_pool_without_ties :
  ∀ x y, x ∈ candidate_pool Demo.ext "q" 1 100 "arctic" Demo.new_controller →
         y ∈ candidate_pool Demo.ext "q" 1 100 "arctic" Demo.new_controller →
         not_below Z.ltb x y → not_below Z.ltb y x → x = y.
Proof.
  assert (Hpool : candidate_pool Demo.ext "q" 1 100 "arctic" Demo.new_controller
                  = (λ i, mkShardHit ("doc" +:+ pretty i +:+ "a") (100 - Z.of_nat i))
                      <$> seq 0 10) by (vm_compute; reflexivity).
  rewrite Hpool. intros x y Hx Hy.
  apply list_elem_of_fmap in Hx as (i & -> & Hi). apply list_elem_of_fmap in Hy as (j & -> & Hj).
  unfold not_below. simpl. intros Hij Hji.
  apply Z.ltb_ge in Hij, Hji. assert (i = j) as -> by lia. reflexivity.
Defined.

(** X13 on the installation: submission order against its reverse. *)
Lemma sharded_search_order_irrelevant_witness :
  StrictWeakOrder Z.ltb ∧ SHARDS ≡ₚ SHARDS ∧ reverse SHARDS ≡ₚ SHARDS ∧
  (sharded_search Z.ltb Demo.ext SHARDS "q" 1 100 "arctic" Demo.new_controller).1
  = (sharded_search Z.ltb Demo.ext (reverse SHARDS) "q" 1 100 "arctic" Demo.new_controller).1.
Proof.
  split_and!; [exact Z_ltb_StrictWeakOrder|reflexivity|apply reverse_Permutation|].
  exact (sharded_search_order_irrelevant Z.ltb Demo.ext SHARDS (reverse SHARDS)
           "q" 1 100 "arctic" Demo.new_controller Z_ltb_StrictWeakOrder
           (reflexivity SHARDS) (reverse_Permutation SHARDS)
           demo_shards_answer_one demo_pool_without_ties).
Defined.

(** X14 on two entries of score 5 around one of score 9. *)
Lemma sort_by_score_desc_stable_witness :
  StrictWeakOrder Z.ltb ∧
  filter (tied_with Z.ltb 5)
    (sort_by_score_desc Z.ltb [mkShardHit "x" 5; mkShardHit "z" 9; mkShardHit "y" 5])
  = [mkShardHit "x" 5; mkShardHit "y" 5].
Proof.
  split; [exact Z_ltb_StrictWeakOrder|].
  exact (sort_by_score_desc_stable Z.ltb 5
           [mkShardHit "x" 5; mkShardHit "z" 9; mkShardHit "y" 5] Z_ltb_StrictWeakOrder).
Defined.

Lemma demo_single_shards_answer :
  ∀ s, s ∈ SHARDS →
       is_Ok (shard_outcome Demo.ext s "q" (-3) 100 "arctic" Demo.controller_single_shards)
       = true.
Proof.
  apply Forall_forall.
  let shards := eval vm_compute in SHARDS in change SHARDS with shards.
  repeat (constructor; [vm_compute; reflexivity|]). constructor.
Defined.

(** X15 on an installation whose ten backends return one document each
    whatever [k] is, for [k = -3]. *)
Lemma sharded_search_unchecked_k_witness :
  StrictWeakOrder Z.ltb ∧ reverse SHARDS ≡ₚ SHARDS ∧
  (∀ s, s ∈ SHARDS →
        is_Ok (shard_outcome Demo.ext s "q" (-3) 100 "arctic" Demo.controller_single_shards)
        = true) ∧
  (-3 ≤ 0)%Z ∧
  ∃ sorted,
    sorted ≡ₚ candidate_pool Demo.ext "q" (-3) 100 "arctic" Demo.controller_single_shards ∧
    StronglySorted (not_below Z.ltb) sorted ∧
    (-3 = 0 →
     (sharded_search Z.ltb Demo.ext (reverse SHARDS) "q" (-3) 100 "arctic"
        Demo.controller_single_shards).1 = Ok []) ∧
    ((-3 < 0)%Z →
     (sharded_search Z.ltb Demo.ext (reverse SHARDS) "q" (-3) 100 "arctic"
        Demo.controller_single_shards).1
     = Ok (take (length sorted - Z.to_nat (- -3)) sorted) ∧
     length (take (length sorted - Z.to_nat (- -3)) sorted)
     = (length (candidate_pool Demo.ext "q" (-3) 100 "arctic"
                  Demo.controller_single_shards) - Z.to_nat (- -3))%nat).
Proof.
  split_and!; [exact Z_ltb_StrictWeakOrder|apply reverse_Permutation
              |exact demo_single_shards_answer|lia|].
  exact (sharded_search_unchecked_k Z.ltb Demo.ext (reverse SHARDS) "q" (-3) 100 "arctic"
           Demo.controller_single_shards Z_ltb_StrictWeakOrder
           (reverse_Permutation SHARDS) demo_single_shards_answer ltac:(lia)).
Defined.

(** There, [k = -3] gives seven entries, the ten of the pool in
    descending order without the last three; [k = 0] gives none. *)
Example sharded_search_negative_k_demo :
  (sharded_search Z.ltb Demo.ext (reverse SHARDS) "q" (-3) 100 "arctic"
     Demo.controller_single_shards).1
  = Ok ((λ i, mkShardHit ("only" +:+ pretty i) (Z.of_nat i)) <$> [9; 8; 7; 6; 5; 4; 3]%nat) ∧
  (sharded_search Z.ltb Demo.ext (reverse SHARDS) "q" 0 100 "arctic"
     Demo.controller_single_shards).1 = Ok [].
Proof. split; vm_compute; reflexivity. Qed.

(** X16 on the installation: a second sharded search with other
    arguments. *)
Lemma sharded_search_again_loads_nothing_witness :
  let w1 := (sharded_search Z.ltb Demo.ext SHARDS "q" 3 100 "arctic" Demo.new_controller).2 in
  let w2 := (sharded_search Z.ltb Demo.ext (reverse SHARDS) "other" 5 7 "e5" w1).2 in
  SHARDS ≡ₚ SHARDS ∧ reverse SHARDS ≡ₚ SHARDS ∧
  (sharded_search Z.ltb Demo.ext SHARDS "q" 3 100 "arctic" Demo.new_controller).1
  = Ok [mkShardHit "doc0a" 100; mkShardHit "doc1a" 99; mkShardHit "doc2a" 98] ∧
  indexes w2 = indexes w1 ∧
  filter is_load (trace w2) = filter is_load (trace w1).
Proof.
  intros w1 w2.
  assert (Hres : (sharded_search Z.ltb Demo.ext SHARDS "q" 3 100 "arctic"
                    Demo.new_controller).1
                 = Ok [mkShardHit "doc0a" 100; mkShardHit "doc1a" 99; mkShardHit "doc2a" 98])
    by (vm_compute; reflexivity).
  split_and!; [reflexivity|apply reverse_Permutation|exact Hres|..];
    apply (sharded_search_again_loads_nothing Z.ltb Demo.ext SHARDS (reverse SHARDS)
             "q" 3 100 "arctic" Demo.new_controller _ "other" 5 7 "e5"
             (reflexivity SHARDS) (reverse_Permutation SHARDS) Hres).
Defined.

(** X17 on the installation: shard 3 is loaded, the other nine are not. *)
Lemma sharded_search_loads_missing_shards_witness :
  reverse SHARDS ≡ₚ SHARDS ∧
  ∃ evs,
    trace (sharded_search Z.ltb Demo.ext (reverse SHARDS) "q" 3 100 "arctic"
             Demo.controller_broken_shard).2 = trace Demo.controller_broken_shard ++ evs ∧
    (∀ ev, ev ∈ evs → is_load ev = true →
           ∃ s, s ∈ SHARDS ∧ ev = EvLoadHnsw s (Some 100) (Some "arctic") ∧
                ∀ c, indexes Demo.controller_broken_shard !! s = Some c → searcher c = None) ∧
    (∀ s, s ∈ SHARDS →
          (∀ c, indexes Demo.controller_broken_shard !! s = Some c → searcher c = None) →
          EvLoadHnsw s (Some 100) (Some "arctic") ∈ evs).
Proof.
  split; [apply reverse_Permutation|].
  exact (sharded_search_loads_missing_shards Z.ltb Demo.ext (reverse SHARDS) "q" 3 100
           "arctic" Demo.controller_broken_shard (reverse_Permutation SHARDS)).
Defined.

(** The nine load events of that call: shard 3 is not among them. *)
Example sharded_search_loads_demo :
  filter is_load
    (trace (sharded_search Z.ltb Demo.ext SHARDS "q" 3 100 "arctic"
              Demo.controller_broken_shard).2)
  = (λ i, EvLoadHnsw (Demo.shard i) (Some 100) (Some "arctic")) <$> [0; 1; 2; 4; 5; 6; 7; 8; 9]%nat.
Proof. vm_compute. reflexivity. Qed.

(** X18 on the installation: the controller of the module after one
    settings update. *)
Lemma reachable_registry_ok_witness :
  reachable Z.ltb Demo.ext Demo.controller_with_settings ∧
  registry_ok Demo.ext Demo.controller_with_settings.
Proof.
  assert (Hreach : reachable Z.ltb Demo.ext Demo.controller_with_settings).
  { exact (reachable_call Z.ltb Demo.ext
             (CallUpdateSettings DEFAULT_INDEX (Some "100") None (Some "rm3")) _
             (reachable_call Z.ltb Demo.ext (CallInitializeDefaultIndex DEFAULT_INDEX) _
                (reachable_new Z.ltb Demo.ext))). }
  split; [exact Hreach|].
  exact (reachable_registry_ok Z.ltb Demo.ext Demo.controller_with_settings Hreach).
Defined.
